(** * Chat client and file repository view: state synchronisation model

    A shallow embedding of the browser client
    ([services/api.js], [components/ChatInterface.jsx] with its [InputBox],
    [components/FileManagement.jsx]) and the properties of its chat-session
    and file-repository state handling.

    Asynchronous functions are terms of an inductive free monad [Task]: a
    task runs synchronously up to its next [fetch], where it suspends until
    the network settles the call.  React state setters, console output,
    dialogs and timers are recorded, in program order, in an event trace. *)

From Stdlib Require Import Ascii String List ZArith NArith Bool Lia.
Import ListNotations.
Local Open Scope Z_scope.

Set Implicit Arguments.
Set Warnings "-register-all".

(* ================================================================== *)
(** ** JavaScript values                                                *)
(* ================================================================== *)

(** A JavaScript string is a sequence of UTF-16 code units. *)
Definition jsstring := list N.

(** ASCII literals of the source. *)
Definition lit (s : string) : jsstring :=
  map N_of_ascii (list_ascii_of_string s).

Fixpoint jseqb (a b : jsstring) : bool :=
  match a, b with
  | [], [] => true
  | x :: a', y :: b' => N.eqb x y && jseqb a' b'
  | _, _ => false
  end.

(** Code units removed by [String.prototype.trim]: ECMAScript WhiteSpace
    and LineTerminator. *)
Definition is_ws (c : N) : bool :=
  let z := Z.of_N c in
  ((9 <=? z) && (z <=? 13))          (* TAB LF VT FF CR *)
  || (z =? 32) || (z =? 160)         (* SPACE, NO-BREAK SPACE *)
  || (z =? 5760)                     (* U+1680 *)
  || ((8192 <=? z) && (z <=? 8202))  (* U+2000 .. U+200A *)
  || (z =? 8232) || (z =? 8233)      (* U+2028, U+2029 *)
  || (z =? 8239) || (z =? 8287)      (* U+202F, U+205F *)
  || (z =? 12288) || (z =? 65279).   (* U+3000, U+FEFF *)

Fixpoint trimStart (s : jsstring) : jsstring :=
  match s with
  | [] => []
  | c :: s' => if is_ws c then trimStart s' else s
  end.

Definition trimEnd (s : jsstring) : jsstring := rev (trimStart (rev s)).

(** [input.trim()] *)
Definition trim (s : jsstring) : jsstring := trimEnd (trimStart s).

(** A string made of white space only (the empty string included). *)
Definition whitespace_only (s : jsstring) : bool := forallb is_ws s.

(** Values read from parsed JSON bodies and kept in component state.
    Numbers are the integers the backend sends ([file_count], [size]). *)
Inductive Val : Type :=
| VUndef
| VNull
| VBool (b : bool)
| VNum (z : Z)
| VStr (s : jsstring)
| VArr (l : list Val)
| VObj (fs : list (jsstring * Val)).

(** Own property of a parsed object; a repeated key keeps its last value,
    as [JSON.parse] does. *)
Fixpoint own (key : jsstring) (fs : list (jsstring * Val)) : option Val :=
  match fs with
  | [] => None
  | (k, v) :: rest =>
      match own key rest with
      | Some x => Some x
      | None => if jseqb k key then Some v else None
      end
  end.

(** Reading the property [key] of [v]: [None] is the TypeError raised on
    null and undefined; an object gives its own property, anything else
    undefined (none of the names read in this program is inherited from a
    built-in prototype). *)
Definition member (v : Val) (key : string) : option Val :=
  match v with
  | VUndef | VNull => None
  | VObj fs => Some (match own (lit key) fs with Some x => x | None => VUndef end)
  | _ => Some VUndef
  end.

(** [v === s] for a string [s]. *)
Definition strict_eq_str (v : Val) (s : jsstring) : bool :=
  match v with
  | VStr x => jseqb x s
  | _ => false
  end.

(** ToBoolean. *)
Definition truthy (v : Val) : bool :=
  match v with
  | VUndef | VNull => false
  | VBool b => b
  | VNum z => negb (z =? 0)
  | VStr s => match s with [] => false | _ => true end
  | VArr _ | VObj _ => true
  end.

(** What the code can throw. *)
Inductive JsError : Type :=
| HttpError (status : Z)   (* new Error(`HTTP error! status: ${response.status}`) *)
| FetchTypeError           (* fetch() rejected: no response was received *)
| JsonSyntaxError          (* response.json() rejected: the body is not JSON *)
| NullishTypeError.        (* a property was read from null or undefined *)

(** The spec's NetworkError: a transport failure or a non-2xx status. *)
Definition NetworkError (e : JsError) : bool :=
  match e with
  | HttpError _ | FetchTypeError => true
  | JsonSyntaxError | NullishTypeError => false
  end.

(* ================================================================== *)
(** ** The network                                                      *)
(* ================================================================== *)

Inductive Method := GET | POST | DELETE.

Record File := { file_name : jsstring; file_bytes : list N }.

(** [FormData]: the appended fields, in order. *)
Definition FormData := list (jsstring * File).

Inductive ReqBody :=
| NoBody
| JsonBody (v : Val)           (* JSON.stringify(v) *)
| FormBody (fd : FormData).

Record Request := {
  method : Method;
  url : jsstring;
  headers : list (string * string);
  body : ReqBody
}.

(** A received HTTP response: its status code and what [response.json()]
    yields, [None] when the body does not parse. *)
Record Response := { status : Z; parsed : option Val }.

(** [response.ok] *)
Definition ok (r : Response) : bool := (200 <=? status r) && (status r <=? 299).

(** How a [fetch] settles. *)
Inductive FetchOutcome :=
| NetFail                       (* the promise rejects *)
| Responded (r : Response).     (* the promise resolves *)

(* ================================================================== *)
(** ** Observable effects                                               *)
(* ================================================================== *)

(** The blocking notifications of the file repository view. *)
Inductive Notice :=
| NoticeDuplicate        (* the file already exists *)
| NoticeUploaded         (* uploaded, the RAG system is updating *)
| NoticeUploadError
| NoticeDeleted
| NoticeDeleteError
| NoticeReinitializing.

(** Functions handed to [setTimeout]. *)
Inductive Callback := CbLoadRAGStatus.

Inductive Output :=
| OLog (tag : string) (e : JsError)      (* console.error(tag, error) *)
| OAlert (n : Notice)                    (* alert(...) *)
| OConfirm (filename : jsstring)         (* window.confirm(...) was shown *)
| OTimer (cb : Callback) (ms : Z).       (* setTimeout(cb, ms) *)

Inductive Event (W : Type) :=
| EvSet (w : W)            (* a setter ran; [w] is the state it leaves *)
| EvOut (o : Output)
| EvFetch (rq : Request).  (* a network call was issued *)

Arguments EvOut {W} o.
Arguments EvFetch {W} rq.

(** What a synchronous step reads from its surroundings. *)
Record Ambient := {
  now : jsstring;              (* new Date().toISOString() *)
  confirms : jsstring -> bool  (* the user's answer to window.confirm *)
}.

(* ================================================================== *)
(** ** Asynchronous tasks                                               *)
(* ================================================================== *)

Inductive Task (W A : Type) : Type :=
| Ret (a : A)
| Throw (e : JsError)
| Now (k : jsstring -> Task W A)
| Confirm (filename : jsstring) (k : bool -> Task W A)
| SetSt (f : W -> W) (k : Task W A)
| Emit (o : Output) (k : Task W A)
| Fetch (rq : Request) (k : FetchOutcome -> Task W A).

Arguments Ret {W A} a.
Arguments Throw {W A} e.
Arguments Now {W A} k.
Arguments Confirm {W A} filename k.
Arguments SetSt {W A} f k.
Arguments Emit {W A} o k.
Arguments Fetch {W A} rq k.

Section Combinators.
Context {W : Type}.

Fixpoint bind {A B} (t : Task W A) (f : A -> Task W B) : Task W B :=
  match t with
  | Ret a => f a
  | Throw e => Throw e
  | Now k => Now (fun x => bind (k x) f)
  | Confirm q k => Confirm q (fun x => bind (k x) f)
  | SetSt g k => SetSt g (bind k f)
  | Emit o k => Emit o (bind k f)
  | Fetch rq k => Fetch rq (fun x => bind (k x) f)
  end.

(** [try { t } catch (error) { h error }] *)
Fixpoint try_catch {A} (t : Task W A) (h : JsError -> Task W A) : Task W A :=
  match t with
  | Ret a => Ret a
  | Throw e => h e
  | Now k => Now (fun x => try_catch (k x) h)
  | Confirm q k => Confirm q (fun x => try_catch (k x) h)
  | SetSt g k => SetSt g (try_catch k h)
  | Emit o k => Emit o (try_catch k h)
  | Fetch rq k => Fetch rq (fun x => try_catch (k x) h)
  end.

(** [try { t } finally { f }]: [f] runs on both exits, and the exit of
    [t] is kept unless [f] throws. *)
Fixpoint try_finally {A} (t : Task W A) (f : Task W unit) : Task W A :=
  match t with
  | Ret a => bind f (fun _ => Ret a)
  | Throw e => bind f (fun _ => Throw e)
  | Now k => Now (fun x => try_finally (k x) f)
  | Confirm q k => Confirm q (fun x => try_finally (k x) f)
  | SetSt g k => SetSt g (try_finally k f)
  | Emit o k => Emit o (try_finally k f)
  | Fetch rq k => Fetch rq (fun x => try_finally (k x) f)
  end.

Definition set (f : W -> W) : Task W unit := SetSt f (Ret tt).
Definition emit (o : Output) : Task W unit := Emit o (Ret tt).

(** [v.key] *)
Definition prop (v : Val) (key : string) : Task W Val :=
  match member v key with
  | Some x => Ret x
  | None => Throw NullishTypeError
  end.
End Combinators.

Declare Scope task_scope.
Delimit Scope task_scope with task.
Notation "x <- t ;; k" := (bind t (fun x => k))
  (at level 61, t at next level, right associativity) : task_scope.
Notation "t ;;; k" := (bind t (fun _ => k))
  (at level 61, right associativity) : task_scope.
Local Open Scope task_scope.

(** How far a task got. *)
Inductive Status (W A : Type) :=
| Done (a : A)                                          (* fulfilled *)
| Failed (e : JsError)                                  (* rejected *)
| Blocked (rq : Request) (k : FetchOutcome -> Task W A). (* awaiting *)

Arguments Done {W A} a.
Arguments Failed {W A} e.
Arguments Blocked {W A} rq k.

Record Run (W A : Type) := {
  final : W;
  trace : list (Event W);
  result : Status W A
}.

Definition logged {W A} (ev : Event W) (r : Run W A) : Run W A :=
  {| final := final r; trace := ev :: trace r; result := result r |}.

(** [exec amb t os w]: run [t] from state [w]; the calls it awaits settle,
    in the order they are issued, with the outcomes [os].  With [os]
    exhausted the task stays suspended at its next call. *)
Fixpoint exec {W A} (amb : Ambient) (t : Task W A) (os : list FetchOutcome)
    (w : W) {struct t} : Run W A :=
  match t with
  | Ret a => {| final := w; trace := []; result := Done a |}
  | Throw e => {| final := w; trace := []; result := Failed e |}
  | Now k => exec amb (k (now amb)) os w
  | Confirm q k => logged (EvOut (OConfirm q)) (exec amb (k (confirms amb q)) os w)
  | SetSt f k => logged (EvSet (f w)) (exec amb k os (f w))
  | Emit o k => logged (EvOut o) (exec amb k os w)
  | Fetch rq k =>
      match os with
      | [] => {| final := w; trace := [EvFetch rq]; result := Blocked rq k |}
      | o :: os' => logged (EvFetch rq) (exec amb (k o) os' w)
      end
  end.

(** One synchronous run, up to the first suspension. *)
Definition advance {W A} (amb : Ambient) (t : Task W A) (w : W) : Run W A :=
  exec amb t [] w.

(* ================================================================== *)
(** ** services/api.js                                                  *)
(* ================================================================== *)

Module Api.
Section Api.
Context {W : Type}.

Definition API_BASE_URL : jsstring := lit "http://localhost:8000".

(** [await fetch(url, init)] *)
Definition fetch (rq : Request) : Task W Response :=
  Fetch rq (fun o =>
    match o with
    | NetFail => Throw FetchTypeError
    | Responded r => Ret r
    end).

(** [await response.json()] *)
Definition json (r : Response) : Task W Val :=
  match parsed r with
  | Some v => Ret v
  | None => Throw JsonSyntaxError
  end.

(** [if (!response.ok) throw new Error(...)] *)
Definition check_ok (r : Response) : Task W unit :=
  if negb (ok r) then Throw (HttpError (status r)) else Ret tt.

Definition chat_request (message : Val) (useRAG : bool) : Request :=
  {| method := POST;
     url := API_BASE_URL ++ lit "/chat";
     headers := [("Content-Type", "application/json")%string];
     body := JsonBody (VObj [(lit "message", message);
                             (lit "use_rag", VBool useRAG)]) |}.

(** [chatAPI.sendMessage] *)
Definition sendMessage (message : Val) (useRAG : bool) : Task W Val :=
  try_catch
    (response <- fetch (chat_request message useRAG) ;;
     check_ok response ;;;
     json response)
    (fun error => emit (OLog "API Error:" error) ;;; Throw error).

Definition upload_request (formData : FormData) : Request :=
  {| method := POST; url := API_BASE_URL ++ lit "/upload";
     headers := []; body := FormBody formData |}.

(** [fileAPI.uploadFile] *)
Definition uploadFile (formData : FormData) : Task W Val :=
  response <- fetch (upload_request formData) ;;
  check_ok response ;;;
  json response.

Definition delete_request (filename : jsstring) : Request :=
  {| method := DELETE; url := API_BASE_URL ++ lit "/files/" ++ filename;
     headers := []; body := NoBody |}.

(** [fileAPI.deleteFile] *)
Definition deleteFile (filename : jsstring) : Task W Val :=
  response <- fetch (delete_request filename) ;;
  check_ok response ;;;
  json response.

Definition list_request : Request :=
  {| method := GET; url := API_BASE_URL ++ lit "/files";
     headers := []; body := NoBody |}.

(** [fileAPI.listFiles] *)
Definition listFiles : Task W Val :=
  response <- fetch list_request ;;
  check_ok response ;;;
  json response.

Definition status_request : Request :=
  {| method := GET; url := API_BASE_URL ++ lit "/rag/status";
     headers := []; body := NoBody |}.

(** [ragAPI.getStatus] *)
Definition getStatus : Task W Val :=
  response <- fetch status_request ;;
  json response.

Definition reinitialize_request : Request :=
  {| method := POST; url := API_BASE_URL ++ lit "/rag/reinitialize";
     headers := []; body := NoBody |}.

(** [ragAPI.reinitialize] *)
Definition reinitialize : Task W Val :=
  response <- fetch reinitialize_request ;;
  json response.
End Api.

(** How an operation of the client settles when its [fetch] settles with
    [o].  The operations read no state and no clock. *)
Definition outcome (t : Task unit Val) (o : FetchOutcome) : Status unit Val :=
  result (exec {| now := []; confirms := fun _ => false |} t [o] tt).

End Api.

(* ================================================================== *)
(** ** The event loop                                                   *)
(* ================================================================== *)

(** A mounted component tree: its state, the calls in flight with the
    suspended tasks that await them, everything observed so far, and the
    rejections no handler caught. *)
Record Sys (W : Type) := {
  world : W;
  pool : list (Request * (FetchOutcome -> Task W unit));
  history : list (Event W);
  unhandled : list JsError
}.

Section Loop.
Context {W : Type}.

(** Calling an async function without awaiting it: it runs up to its
    first suspension and the caller goes on. *)
Definition spawn (amb : Ambient) (t : Task W unit) (s : Sys W) : Sys W :=
  let r := advance amb t (world s) in
  {| world := final r;
     pool := match result r with
             | Blocked rq k => pool s ++ [(rq, k)]
             | _ => pool s
             end;
     history := history s ++ trace r;
     unhandled := match result r with
                  | Failed e => unhandled s ++ [e]
                  | _ => unhandled s
                  end |}.

Fixpoint remove_nth {A} (i : nat) (l : list A) : list A :=
  match i, l with
  | _, [] => []
  | O, _ :: l' => l'
  | S i', x :: l' => x :: remove_nth i' l'
  end.

(** The [i]-th call in flight settles with [o]; its task resumes. *)
Definition settle (amb : Ambient) (i : nat) (o : FetchOutcome) (s : Sys W)
  : Sys W :=
  match nth_error (pool s) i with
  | None => s
  | Some (_, k) =>
      spawn amb (k o)
        {| world := world s; pool := remove_nth i (pool s);
           history := history s; unhandled := unhandled s |}
  end.

(** A state setter called from a synchronous handler. *)
Definition react (f : W -> W) (s : Sys W) : Sys W :=
  {| world := f (world s); pool := pool s;
     history := history s ++ [EvSet (f (world s))];
     unhandled := unhandled s |}.

(** The network calls issued so far. *)
Fixpoint calls (h : list (Event W)) : list Request :=
  match h with
  | [] => []
  | EvFetch rq :: h' => rq :: calls h'
  | _ :: h' => calls h'
  end.

(** The timers registered so far. *)
Fixpoint timers (h : list (Event W)) : list (Callback * Z) :=
  match h with
  | [] => []
  | EvOut (OTimer cb ms) :: h' => (cb, ms) :: timers h'
  | _ :: h' => timers h'
  end.

(** The successive states the setters left. *)
Fixpoint states (h : list (Event W)) : list W :=
  match h with
  | [] => []
  | EvSet w :: h' => w :: states h'
  | _ :: h' => states h'
  end.
End Loop.

(* ================================================================== *)
(** ** components/ChatInterface.jsx                                     *)
(* ================================================================== *)

Module Chat.

Inductive Sender := user | bot.

(** [isError] is either absent or [true]. *)
Record Message := {
  text : Val;
  sender : Sender;
  timestamp : jsstring;
  isError : option bool
}.

(** [messages] and [isLoading] of [ChatInterface], [input] of its
    [InputBox]. *)
Record State := {
  messages : list Message;
  isLoading : bool;
  input : jsstring
}.

Definition setMessages (ms : list Message) (w : State) : State :=
  {| messages := ms; isLoading := isLoading w; input := input w |}.
Definition setIsLoading (b : bool) (w : State) : State :=
  {| messages := messages w; isLoading := b; input := input w |}.
Definition setInput (s : jsstring) (w : State) : State :=
  {| messages := messages w; isLoading := isLoading w; input := s |}.

(** [useState([])], [useState(false)], [useState('')] *)
Definition initial : State :=
  {| messages := []; isLoading := false; input := [] |}.

Definition fallback_text : jsstring :=
  lit "Sorry, I encountered an error. Please try again.".

(** [handleSendMessage], as created by the render that saw [messages]. *)
Definition handleSendMessage (messages : list Message) (message : jsstring)
  : Task State unit :=
  Now (fun t0 =>
    let userMessage :=
      {| text := VStr message; sender := user; timestamp := t0;
         isError := None |} in
    let updatedMessages := messages ++ [userMessage] in
    set (setMessages updatedMessages) ;;;
    set (setIsLoading true) ;;;
    try_finally
      (try_catch
         (response <- Api.sendMessage (VStr message) true ;;
          reply <- prop response "reply" ;;
          Now (fun t1 =>
            let botMessage :=
              {| text := reply; sender := bot; timestamp := t1;
                 isError := None |} in
            set (setMessages (updatedMessages ++ [botMessage]))))
         (fun error =>
            emit (OLog "Error sending message:" error) ;;;
            Now (fun t1 =>
              let errorMessage :=
                {| text := VStr fallback_text; sender := bot;
                   timestamp := t1; isError := Some true |} in
              set (setMessages (updatedMessages ++ [errorMessage])))))
      (set (setIsLoading false))).

(** [InputBox.handleSubmit], with the props [onSendMessage] and
    [isLoading] it was rendered with and its own [input]. *)
Definition handleSubmit (amb : Ambient)
    (onSendMessage : jsstring -> Task State unit) (isLoading : bool)
    (s : Sys State) : Sys State :=
  let input := input (world s) in
  if truthy (VStr (trim input)) && negb isLoading then
    react (setInput []) (spawn amb (onSendMessage (trim input)) s)
  else s.

(** What the user and the network can do to a mounted chat. *)
Inductive Action :=
| Type_ (s : jsstring)                  (* onChange: setInput(e.target.value) *)
| Submit                                (* the form is submitted *)
| Settle (i : nat) (o : FetchOutcome).  (* a call in flight settles *)

(** One turn of the event loop.  The handlers are those of the latest
    render: [ChatInterface] passes [handleSendMessage], closed over the
    current [messages], and the current [isLoading] to [InputBox]. *)
Definition step (amb : Ambient) (a : Action) (s : Sys State) : Sys State :=
  match a with
  | Type_ v => react (setInput v) s
  | Submit =>
      handleSubmit amb (handleSendMessage (messages (world s)))
        (isLoading (world s)) s
  | Settle i o => settle amb i o s
  end.

Definition mounted : Sys State :=
  {| world := initial; pool := []; history := []; unhandled := [] |}.

(** The three messages [handleSendMessage] builds. *)
Definition userMessage (message t : jsstring) : Message :=
  {| text := VStr message; sender := user; timestamp := t; isError := None |}.
Definition botMessage (reply : Val) (t : jsstring) : Message :=
  {| text := reply; sender := bot; timestamp := t; isError := None |}.
Definition errorMessage (t : jsstring) : Message :=
  {| text := VStr fallback_text; sender := bot; timestamp := t;
     isError := Some true |}.

(** The rest of [handleSendMessage messages message], suspended at its
    [await] since the submission at time [t0]. *)
Definition awaiting_reply (messages : list Message) (message t0 : jsstring)
  : FetchOutcome -> Task State unit :=
  match
    result (advance {| now := t0; confirms := fun _ => false |}
              (handleSendMessage messages message) initial)
  with
  | Blocked _ k => k
  | _ => fun _ => Ret tt
  end.

(** The transcript after the setters of [h], starting from [cur]. *)
Fixpoint latest (cur : list Message) (h : list (Event State)) : list Message :=
  match h with
  | [] => cur
  | EvSet w :: h' => latest (messages w) h'
  | _ :: h' => latest cur h'
  end.

(** Every setter in [h] leaves a transcript that extends the one before,
    starting from [cur]. *)
Fixpoint append_only (cur : list Message) (h : list (Event State)) : Prop :=
  match h with
  | [] => True
  | EvSet w :: h' =>
      (exists suffix, messages w = cur ++ suffix) /\ append_only (messages w) h'
  | _ :: h' => append_only cur h'
  end.

(** The states a session can be in. *)
Inductive reachable : Sys State -> Prop :=
| reach_mounted : reachable mounted
| reach_step amb a s : reachable s -> reachable (step amb a s).

End Chat.

(* ================================================================== *)
(** ** components/FileManagement.jsx                                    *)
(* ================================================================== *)

Module Files.

(** [files], [uploading] and [ragStatus] of [FileManagement], and the
    value of its file input element. *)
Record State := {
  files : Val;
  uploading : bool;
  ragStatus : Val;
  picker : jsstring
}.

Definition setFiles (v : Val) (w : State) : State :=
  {| files := v; uploading := uploading w; ragStatus := ragStatus w;
     picker := picker w |}.
Definition setUploading (b : bool) (w : State) : State :=
  {| files := files w; uploading := b; ragStatus := ragStatus w;
     picker := picker w |}.
Definition setRagStatus (v : Val) (w : State) : State :=
  {| files := files w; uploading := uploading w; ragStatus := v;
     picker := picker w |}.
(** [event.target.value = ...] *)
Definition setPicker (s : jsstring) (w : State) : State :=
  {| files := files w; uploading := uploading w; ragStatus := ragStatus w;
     picker := s |}.

(** [useState([])], [useState(false)], [useState({})]; nothing selected. *)
Definition initial : State :=
  {| files := VArr []; uploading := false; ragStatus := VObj [];
     picker := [] |}.

(** The status card: [ragStatus.rag_initialized ? ... : ...] and
    [ragStatus.file_count || 0]; [None] when reading the property throws. *)
Definition shown_initialized (w : State) : option bool :=
  option_map truthy (member (ragStatus w) "rag_initialized").
Definition shown_fileCount (w : State) : option Val :=
  option_map (fun v => if truthy v then v else VNum 0)
    (member (ragStatus w) "file_count").

Definition loadFiles : Task State unit :=
  try_catch
    (response <- Api.listFiles ;;
     fs <- prop response "files" ;;
     set (setFiles fs))
    (fun error => emit (OLog "Error loading files:" error)).

Definition loadRAGStatus : Task State unit :=
  try_catch
    (status <- Api.getStatus ;;
     set (setRagStatus status))
    (fun error => emit (OLog "Error loading RAG status:" error)).

(** The change event of the file input: [event.target.files]. *)
Record ChangeEvent := { target_files : list File }.

Definition handleFileUpload (event : ChangeEvent) : Task State unit :=
  match hd_error (target_files event) with
  | None => Ret tt
  | Some file =>
      let formData := [(lit "file", file)] in
      set (setUploading true) ;;;
      try_finally
        (try_catch
           (result <- Api.uploadFile formData ;;
            st <- prop result "status" ;;
            if strict_eq_str st (lit "duplicate") then
              emit (OAlert NoticeDuplicate)
            else
              loadFiles ;;;
              loadRAGStatus ;;;
              emit (OAlert NoticeUploaded))
           (fun error =>
              emit (OLog "Error uploading file:" error) ;;;
              emit (OAlert NoticeUploadError)))
        (set (setUploading false) ;;;
         set (setPicker []))
  end.

Definition handleDeleteFile (filename : jsstring) : Task State unit :=
  Confirm filename (fun confirmed =>
    if confirmed then
      try_catch
        (Api.deleteFile filename ;;;
         loadFiles ;;;
         loadRAGStatus ;;;
         emit (OAlert NoticeDeleted))
        (fun error =>
           emit (OLog "Error deleting file:" error) ;;;
           emit (OAlert NoticeDeleteError))
    else Ret tt).

Definition handleReinitializeRAG : Task State unit :=
  try_catch
    (Api.reinitialize ;;;
     emit (OAlert NoticeReinitializing) ;;;
     emit (OTimer CbLoadRAGStatus 3000))
    (fun error => emit (OLog "Error reinitializing RAG:" error)).

(** The function a registered timer runs when it fires. *)
Definition callback (cb : Callback) : Task State unit :=
  match cb with
  | CbLoadRAGStatus => loadRAGStatus
  end.

(** [useEffect(() => { loadFiles(); loadRAGStatus(); }, [])] *)
Definition mount (amb : Ambient) (s : Sys State) : Sys State :=
  spawn amb loadRAGStatus (spawn amb loadFiles s).

Definition unmounted : Sys State :=
  {| world := initial; pool := []; history := []; unhandled := [] |}.

End Files.

(* ================================================================== *)
(** ** What tasks never do                                              *)
(* ================================================================== *)

(** The console lines, dialogs and timers in a trace. *)
Fixpoint outputs {W} (h : list (Event W)) : list Output :=
  match h with
  | [] => []
  | EvOut o :: h' => o :: outputs h'
  | _ :: h' => outputs h'
  end.

(** No path through [t] ends in a [throw], and every setter on the way
    takes a state to one related to it by [R]. *)
Fixpoint respects {W A} (R : W -> W -> Prop) (t : Task W A) : Prop :=
  match t with
  | Ret _ => True
  | Throw _ => False
  | Now k => forall x, respects R (k x)
  | Confirm _ k => forall x, respects R (k x)
  | SetSt f k => (forall w, R w (f w)) /\ respects R k
  | Emit _ k => respects R k
  | Fetch _ k => forall o, respects R (k o)
  end.

(* ================================================================== *)
(** ** components/InputBox.jsx (in ChatInterface.jsx)                   *)
(* ================================================================== *)

Module InputBox.

(** [<button type="submit" disabled={isLoading || !input.trim()}>] *)
Definition send_disabled (isLoading : bool) (input : jsstring) : bool :=
  isLoading || negb (truthy (VStr (trim input))).

(** The fields of a keyboard event that [handleKeyPress] reads. *)
Record KeyEvent := { key : jsstring; shiftKey : bool }.

(** [handleKeyPress]: Enter without Shift submits. *)
Definition handleKeyPress (e : KeyEvent) (amb : Ambient)
    (onSendMessage : jsstring -> Task Chat.State unit) (isLoading : bool)
    (s : Sys Chat.State) : Sys Chat.State :=
  if jseqb (key e) (lit "Enter") && negb (shiftKey e) then
    Chat.handleSubmit amb onSendMessage isLoading s
  else s.

(** A key pressed in the text input of a mounted chat, with the props of
    the latest render. *)
Definition keypress (amb : Ambient) (e : KeyEvent) (s : Sys Chat.State)
  : Sys Chat.State :=
  handleKeyPress e amb (Chat.handleSendMessage (Chat.messages (world s)))
    (Chat.isLoading (world s)) s.

End InputBox.

(* ================================================================== *)
(** ** Reading a transcript                                             *)
(* ================================================================== *)

Module Transcript.

Definition other (e : Chat.Sender) : Chat.Sender :=
  match e with
  | Chat.user => Chat.bot
  | Chat.bot => Chat.user
  end.

Definition sender_eqb (a b : Chat.Sender) : bool :=
  match a, b with
  | Chat.user, Chat.user | Chat.bot, Chat.bot => true
  | _, _ => false
  end.

(** The senders of [ms] alternate, starting with [e]. *)
Fixpoint alternates (e : Chat.Sender) (ms : list Chat.Message) : bool :=
  match ms with
  | [] => true
  | m :: rest => sender_eqb (Chat.sender m) e && alternates (other e) rest
  end.

Definition from_user (m : Chat.Message) : bool :=
  sender_eqb (Chat.sender m) Chat.user.

(** The call that carries the text of [m]. *)
Definition request_for (m : Chat.Message) : Request :=
  Api.chat_request (Chat.text m) true.

(** A text as [handleSubmit] passes it on: a string, not empty, with no
    white space at either end. *)
Definition sendable (v : Val) : Prop :=
  exists t, v = VStr t
    /\ t <> []
    /\ trim t = t
    /\ (forall c r, t = c :: r -> is_ws c = false)
    /\ (forall r c, t = r ++ [c] -> is_ws c = false).

End Transcript.

(** The two shapes of a chat between events: nothing in flight and
    [isLoading] clear, or the one call of a suspended [handleSendMessage]
    in flight, [isLoading] set and the transcript it captured on screen. *)
Definition between_turns (s : Sys Chat.State) : Prop :=
  pool s = [] /\ Chat.isLoading (world s) = false
  \/ exists rq ms message t0,
       pool s = [(rq, Chat.awaiting_reply ms message t0)]
       /\ Chat.isLoading (world s) = true
       /\ Chat.messages (world s) = ms ++ [Chat.userMessage message t0].

(** A property of all six operations of the client, for all arguments. *)
Definition every_operation {W} (P : Task W Val -> Prop) : Prop :=
  (forall message useRAG, P (Api.sendMessage message useRAG))
  /\ (forall formData, P (Api.uploadFile formData))
  /\ (forall filename, P (Api.deleteFile filename))
  /\ P Api.listFiles
  /\ P Api.getStatus
  /\ P Api.reinitialize.

(* ================================================================== *)
(** ** The file repository view as a whole                              *)
(* ================================================================== *)

Module View.

(** A setter that leaves the upload flag and the file input alone. *)
Definition keeps_upload (w w' : Files.State) : Prop :=
  Files.uploading w' = Files.uploading w /\ Files.picker w' = Files.picker w.

(** Started with [uploading = b], the task suspends only with [uploading]
    true, completes only with it false, and never throws. *)
Fixpoint upload_discipline {A} (b : bool) (t : Task Files.State A) : Prop :=
  match t with
  | Ret _ => b = false
  | Throw _ => False
  | Now k => forall x, upload_discipline b (k x)
  | Confirm _ k => forall x, upload_discipline b (k x)
  | SetSt f k =>
      exists b', (forall w, Files.uploading w = b -> Files.uploading (f w) = b')
                 /\ upload_discipline b' k
  | Emit _ k => upload_discipline b k
  | Fetch _ k => b = true /\ forall o, upload_discipline true (k o)
  end.

Definition Suspended : Type :=
  (Request * (FetchOutcome -> Task Files.State unit))%type.

(** [in_flight b l]: the suspended tasks [l] are, when [b] is true, one
    task under the upload discipline among tasks that keep the upload
    state, and when [b] is false only tasks that keep it. *)
Inductive in_flight : bool -> list Suspended -> Prop :=
| in_flight_nil : in_flight false []
| in_flight_other b rq k l :
    (forall o, respects keeps_upload (k o)) ->
    in_flight b l -> in_flight b ((rq, k) :: l)
| in_flight_upload rq k l :
    (forall o, upload_discipline true (k o)) ->
    in_flight false l -> in_flight true ((rq, k) :: l).

(** The mounted view and the number of its timers that have fired. *)
Record Mounted := { sys : Sys Files.State; fired : nat }.

(** What the user, the clock and the network can do to it. *)
Inductive Action :=
| Upload (event : Files.ChangeEvent)   (* a file is chosen *)
| Delete (filename : jsstring)         (* a card's delete button *)
| Reinitialize                         (* the reinitialize button *)
| Fire                                 (* the oldest pending timer *)
| Settle (i : nat) (o : FetchOutcome). (* a call in flight settles *)

Definition on (v : Mounted) (s : Sys Files.State) : Mounted :=
  {| sys := s; fired := fired v |}.

(** One turn of the event loop.  The file input is rendered with
    [disabled={uploading}], and a disabled input fires no change event.
    The timers all have the same delay and fire in the order they were
    registered.  [Delete] stands for any card; the cards offer the file
    names of the listing. *)
Definition step (amb : Ambient) (a : Action) (v : Mounted) : Mounted :=
  match a with
  | Upload event =>
      if Files.uploading (world (sys v)) then v
      else on v (spawn amb (Files.handleFileUpload event) (sys v))
  | Delete filename => on v (spawn amb (Files.handleDeleteFile filename) (sys v))
  | Reinitialize => on v (spawn amb Files.handleReinitializeRAG (sys v))
  | Fire =>
      match nth_error (timers (history (sys v))) (fired v) with
      | Some (cb, _) =>
          {| sys := spawn amb (Files.callback cb) (sys v);
             fired := S (fired v) |}
      | None => v
      end
  | Settle i o => on v (settle amb i o (sys v))
  end.

Inductive reachable : Mounted -> Prop :=
| reach_mount amb :
    reachable {| sys := Files.mount amb Files.unmounted; fired := 0 |}
| reach_step amb a v : reachable v -> reachable (step amb a v).

(** [v.length] for a [v] that came out of [JSON.parse]; [None] is the
    TypeError raised on null and undefined. *)
Definition js_length (v : Val) : option Val :=
  match v with
  | VUndef | VNull => None
  | VArr l => Some (VNum (Z.of_nat (length l)))
  | VStr s => Some (VNum (Z.of_nat (length s)))
  | VObj fs => Some (match own (lit "length") fs with Some x => x | None => VUndef end)
  | VNum _ | VBool _ => Some VUndef
  end.

(** The test of the list section, [files.length === 0]; [None] when
    evaluating it throws, and the view cannot render. *)
Definition list_is_empty (w : Files.State) : option bool :=
  option_map (fun n => match n with VNum 0 => true | _ => false end)
    (js_length (Files.files w)).

End View.


Arguments ok : simpl never.
Arguments lit : simpl never.

(* ================================================================== *)
(** ** Sample inputs                                                    *)
(* ================================================================== *)

Module Sample.

Definition noon : Ambient :=
  {| now := lit "2024-09-30T12:00:00.000Z"; confirms := fun _ => true |}.
Definition later : Ambient :=
  {| now := lit "2024-09-30T12:00:01.000Z"; confirms := fun _ => false |}.

Definition hello_typed : Sys Chat.State :=
  Chat.step noon (Chat.Type_ (lit " Hello ")) Chat.mounted.
Definition blank_typed : Sys Chat.State :=
  Chat.step noon (Chat.Type_ (lit "   ")) Chat.mounted.

Definition http (code : Z) (v : Val) : FetchOutcome :=
  Responded {| status := code; parsed := Some v |}.
(** A response whose body is not JSON, such as a plain-text error page. *)
Definition http_text (code : Z) : FetchOutcome :=
  Responded {| status := code; parsed := None |}.

(** A turn whose call came back as a plain-text 500. *)
Definition failed_session : Sys Chat.State :=
  Chat.step later (Chat.Settle 0 (http_text 500))
    (Chat.step noon Chat.Submit hello_typed).

Definition reply_hi : Val := VObj [(lit "reply", VStr (lit "Hi!"))].

Definition upload_ok : Val := VObj [(lit "status", VStr (lit "ok"))].
Definition listing : Val :=
  VObj [(lit "files",
         VArr [VObj [(lit "filename", VStr (lit "report.pdf"))]])].

Definition report_pdf : File :=
  {| file_name := lit "report.pdf"; file_bytes := [37; 80; 68; 70]%N |}.
Definition pick_report : Files.ChangeEvent :=
  {| Files.target_files := [report_pdf] |}.
Definition pick_nothing : Files.ChangeEvent :=
  {| Files.target_files := [] |}.

End Sample.

Module Sample2.

(** The view just after mounting, with a file chosen while both initial
    fetches are still in flight. *)
Definition uploading_view : View.Mounted :=
  View.step Sample.noon (View.Upload Sample.pick_report)
    {| View.sys := Files.mount Sample.noon Files.unmounted; View.fired := 0 |}.

(** A 2xx listing response that is an object without [files]. *)
Definition listing_without_files : FetchOutcome :=
  Sample.http 200 (VObj [(lit "detail", VStr (lit "none"))]).

Definition status_active : Val :=
  VObj [(lit "rag_initialized", VBool true); (lit "file_count", VNum 2)].

End Sample2.

(* ================================================================== *)
(** ** Proof automation                                                 *)
(* ================================================================== *)

(** Case analysis on how the awaited calls settle. *)
Ltac settle_all :=
  repeat (cbn; unfold Api.check_ok, prop; cbn;
    match goal with
    | |- context [match ?o with NetFail => _ | Responded _ => _ end] =>
        is_var o; destruct o as [|[? [?|]]]
    | |- context [ok ?r] => destruct (ok r)
    | |- context [match member ?b ?k with Some _ => _ | None => _ end] =>
        destruct (member b k)
    | |- context [strict_eq_str ?v ?s] => destruct (strict_eq_str v s)
    end);
  cbn.

Ltac api_cases o H :=
  unfold Api.outcome in H;
  destruct o as [|[code [body|]]]; cbn in H; unfold Api.check_ok in H;
  cbn in H;
  try (destruct (ok _) eqn:Hok in H; cbn in H);
  try discriminate.

(** Walking every path of a handler. *)
Ltac walk :=
  repeat (cbn; unfold Api.check_ok, Api.json, prop; cbn;
    match goal with
    | |- _ = ?y => is_evar y; first [eassumption | reflexivity]
    | |- forall _, _ => intro
    | |- _ /\ _ => split
    | |- context [match ?o with NetFail => _ | Responded _ => _ end] =>
        is_var o; destruct o as [|[? [?|]]]
    | |- context [ok ?r] => destruct (ok r)
    | |- context [match member ?b ?k with Some _ => _ | None => _ end] =>
        destruct (member b k)
    | |- context [strict_eq_str ?v ?s] => destruct (strict_eq_str v s)
    | |- context [if ?b then _ else _] => is_var b; destruct b
    | |- exists _, _ => eexists
    end);
  cbn; auto.

(* ================================================================== *)
(** ** Facts about strings and lists                                    *)
(* ================================================================== *)

Lemma forallb_trimStart s : forallb is_ws (trimStart s) = forallb is_ws s.
Proof.
  induction s as [|c s IH]; simpl; [reflexivity|].
  destruct (is_ws c) eqn:E; simpl; [exact IH | now rewrite E].
Qed.

Lemma trimStart_nil_iff s : trimStart s = [] <-> forallb is_ws s = true.
Proof.
  induction s as [|c s IH]; simpl; [tauto|].
  destruct (is_ws c); simpl; [exact IH|].
  split; discriminate.
Qed.

Lemma forallb_rev {A} (p : A -> bool) l : forallb p (rev l) = forallb p l.
Proof.
  induction l as [|x l IH]; simpl; [reflexivity|].
  rewrite forallb_app, IH; simpl. rewrite andb_true_r. apply andb_comm.
Qed.

Lemma trim_nil_iff s : trim s = [] <-> whitespace_only s = true.
Proof.
  unfold trim, trimEnd, whitespace_only.
  rewrite <- (forallb_trimStart s), <- (forallb_rev is_ws (trimStart s)).
  rewrite <- trimStart_nil_iff.
  split; intro H.
  - apply (f_equal (@rev N)) in H. rewrite rev_involutive in H. exact H.
  - rewrite H. reflexivity.
Qed.

(** [input.trim()] is falsy exactly on white-space-only input. *)
Lemma truthy_trim s : truthy (VStr (trim s)) = negb (whitespace_only s).
Proof.
  destruct (whitespace_only s) eqn:E; simpl.
  - apply trim_nil_iff in E. now rewrite E.
  - destruct (trim s) eqn:T; [|reflexivity].
    apply trim_nil_iff in T. congruence.
Qed.

Lemma nth_error_snoc {A} (l : list A) x : nth_error (l ++ [x]) (length l) = Some x.
Proof. induction l; simpl; auto. Qed.

Lemma remove_nth_snoc {A} (l : list A) x : remove_nth (length l) (l ++ [x]) = l.
Proof. induction l; simpl; [reflexivity | now f_equal]. Qed.

(* ================================================================== *)
(** ** The chat session                                                 *)
(* ================================================================== *)

(** The guard of [handleSubmit] fails: nothing happens. *)
Lemma submit_ignored amb (s : Sys Chat.State) :
  Chat.isLoading (world s) = true \/
  whitespace_only (Chat.input (world s)) = true ->
  Chat.step amb Chat.Submit s = s.
Proof.
  intros H. unfold Chat.step, Chat.handleSubmit. rewrite truthy_trim.
  destruct H as [H | H]; rewrite H; simpl;
    [now rewrite andb_false_r | reflexivity].
Qed.

(** C1. A submission made while a reply is awaited ([isLoading] is true)
    or whose text is empty or white-space-only does nothing at all: the
    transcript, the calls in flight and the record of issued network calls
    are those of before. *)
Theorem rejected_submission_is_noop amb (s : Sys Chat.State) :
  Chat.isLoading (world s) = true \/
  whitespace_only (Chat.input (world s)) = true ->
  Chat.step amb Chat.Submit s = s
  /\ Chat.messages (world (Chat.step amb Chat.Submit s)) = Chat.messages (world s)
  /\ calls (history (Chat.step amb Chat.Submit s)) = calls (history s)
  /\ pool (Chat.step amb Chat.Submit s) = pool s.
Proof.
  intros H. rewrite (submit_ignored amb s H). auto.
Qed.

Lemma rejected_submission_is_noop_witness :
  Chat.step Sample.noon Chat.Submit Sample.blank_typed = Sample.blank_typed
  /\ Chat.messages (world (Chat.step Sample.noon Chat.Submit Sample.blank_typed))
     = Chat.messages (world Sample.blank_typed)
  /\ calls (history (Chat.step Sample.noon Chat.Submit Sample.blank_typed))
     = calls (history Sample.blank_typed)
  /\ pool (Chat.step Sample.noon Chat.Submit Sample.blank_typed)
     = pool Sample.blank_typed.
Proof.
  apply (rejected_submission_is_noop Sample.noon Sample.blank_typed).
  right. reflexivity.
Defined.

(** An accepted submission: what [handleSubmit] does in its one
    synchronous run. *)
Lemma submit_accepted amb (s : Sys Chat.State) :
  Chat.isLoading (world s) = false ->
  whitespace_only (Chat.input (world s)) = false ->
  let w := world s in
  let message := trim (Chat.input w) in
  let updated := Chat.messages w ++ [Chat.userMessage message (now amb)] in
  let w1 := Chat.setMessages updated w in
  let w2 := Chat.setIsLoading true w1 in
  let w3 := Chat.setInput [] w2 in
  Chat.step amb Chat.Submit s =
  {| world := w3;
     pool := pool s ++ [(Api.chat_request (VStr message) true,
                         Chat.awaiting_reply (Chat.messages w) message (now amb))];
     history := history s ++
       [EvSet w1; EvSet w2; EvFetch (Api.chat_request (VStr message) true);
        EvSet w3];
     unhandled := unhandled s |}.
Proof.
  intros H1 H2. cbv zeta.
  unfold Chat.step, Chat.handleSubmit. rewrite truthy_trim, H1, H2. simpl.
  unfold spawn, react, advance. cbn.
  rewrite <- app_assoc. reflexivity.
Qed.

(** The call resolved with a response whose [reply] can be read. *)
Lemma resume_resolved amb ms message t0 o v reply (w : Chat.State) :
  Api.outcome (Api.sendMessage (VStr message) true) o = Done v ->
  member v "reply" = Some reply ->
  let updated := ms ++ [Chat.userMessage message t0] in
  let w1 := Chat.setMessages (updated ++ [Chat.botMessage reply (now amb)]) w in
  exec amb (Chat.awaiting_reply ms message t0 o) [] w =
  {| final := Chat.setIsLoading false w1;
     trace := [EvSet w1; EvSet (Chat.setIsLoading false w1)];
     result := Done tt |}.
Proof.
  unfold Api.outcome. intros Ho Hm.
  destruct o as [|[code [body|]]]; cbn in Ho; unfold Api.check_ok in Ho;
    cbn in Ho; try discriminate.
  - destruct (ok _) eqn:Ok in Ho; cbn in Ho; [|discriminate].
    injection Ho as ->.
    cbn. unfold Api.check_ok. rewrite Ok. cbn.
    unfold prop. rewrite Hm. cbn. reflexivity.
  - destruct (ok _) in Ho; cbn in Ho; discriminate.
Qed.

(** The call was rejected. *)
Lemma resume_rejected amb ms message t0 o e (w : Chat.State) :
  Api.outcome (Api.sendMessage (VStr message) true) o = Failed e ->
  let updated := ms ++ [Chat.userMessage message t0] in
  let w1 := Chat.setMessages (updated ++ [Chat.errorMessage (now amb)]) w in
  exec amb (Chat.awaiting_reply ms message t0 o) [] w =
  {| final := Chat.setIsLoading false w1;
     trace := [EvOut (OLog "API Error:" e);
               EvOut (OLog "Error sending message:" e);
               EvSet w1; EvSet (Chat.setIsLoading false w1)];
     result := Done tt |}.
Proof.
  unfold Api.outcome. intros Ho.
  destruct o as [|[code [body|]]]; cbn in Ho; unfold Api.check_ok in Ho;
    cbn in Ho.
  - injection Ho as <-. reflexivity.
  - destruct (ok _) eqn:Ok in Ho; cbn in Ho; [discriminate|].
    injection Ho as <-.
    cbn. unfold Api.check_ok. rewrite Ok. reflexivity.
  - destruct (ok _) eqn:Ok in Ho; cbn in Ho; injection Ho as <-;
      cbn; unfold Api.check_ok; rewrite Ok; reflexivity.
Qed.

(** A response that is JSON [null] has no [reply] to read: the TypeError
    is caught like a failed call, without the client's own log line. *)
Lemma resume_null_response amb ms message t0 code (w : Chat.State) :
  ok {| status := code; parsed := Some VNull |} = true ->
  let updated := ms ++ [Chat.userMessage message t0] in
  let w1 := Chat.setMessages (updated ++ [Chat.errorMessage (now amb)]) w in
  exec amb (Chat.awaiting_reply ms message t0
              (Responded {| status := code; parsed := Some VNull |})) [] w =
  {| final := Chat.setIsLoading false w1;
     trace := [EvOut (OLog "Error sending message:" NullishTypeError);
               EvSet w1; EvSet (Chat.setIsLoading false w1)];
     result := Done tt |}.
Proof.
  intros Hok. cbn. unfold Api.check_ok. rewrite Hok. reflexivity.
Qed.

(** Whatever the outcome, the resumed handler appends one message to the
    transcript it captured, clears [isLoading] and completes. *)
Lemma resume_always amb ms message t0 o (w : Chat.State) :
  exists m outs,
    let w1 := Chat.setMessages ((ms ++ [Chat.userMessage message t0]) ++ [m]) w in
    exec amb (Chat.awaiting_reply ms message t0 o) [] w =
    {| final := Chat.setIsLoading false w1;
       trace := map EvOut outs ++ [EvSet w1; EvSet (Chat.setIsLoading false w1)];
       result := Done tt |}.
Proof.
  destruct o as [|[code [body|]]]; cbn; unfold Api.check_ok; cbn.
  - eexists _, [_; _]. reflexivity.
  - destruct (ok _); cbn.
    + unfold prop. destruct (member body "reply") eqn:M; cbn.
      * eexists _, []. reflexivity.
      * eexists _, [_]. reflexivity.
    + eexists _, [_; _]. reflexivity.
  - destruct (ok _); cbn; eexists _, [_; _]; reflexivity.
Qed.

Lemma calls_app {W} (h1 h2 : list (Event W)) : calls (h1 ++ h2) = calls h1 ++ calls h2.
Proof.
  induction h1 as [|[w|o|rq] h1 IH]; simpl; auto. now rewrite IH.
Qed.

(** C2. An accepted submission whose call succeeds.  The user message is
    appended, and [isLoading] set, in the synchronous run that then issues
    the call; until the call settles the transcript holds that message
    only.  When the call resolves with a response [v] whose [reply] reads
    as [reply] (a JSON object, as the backend sends, or any value other
    than [null]), the bot message carrying [reply] is appended and
    [isLoading] cleared: two messages more than before the turn, nothing
    of the turn left in flight, nothing thrown. *)
Theorem successful_turn amb0 amb1 (s : Sys Chat.State) o v reply :
  Chat.isLoading (world s) = false ->
  whitespace_only (Chat.input (world s)) = false ->
  Api.outcome (Api.sendMessage (VStr (trim (Chat.input (world s)))) true) o
    = Done v ->
  member v "reply" = Some reply ->
  let ms := Chat.messages (world s) in
  let message := trim (Chat.input (world s)) in
  let um := Chat.userMessage message (now amb0) in
  let bm := Chat.botMessage reply (now amb1) in
  let rq := Api.chat_request (VStr message) true in
  let s1 := Chat.step amb0 Chat.Submit s in
  let s2 := Chat.step amb1 (Chat.Settle (length (pool s)) o) s1 in
  (* the synchronous run of the submission *)
  (exists w1 w2 w3,
      history s1 = history s ++ [EvSet w1; EvSet w2; EvFetch rq; EvSet w3]
      /\ Chat.messages w1 = ms ++ [um] /\ Chat.isLoading w1 = false
      /\ Chat.messages w2 = ms ++ [um] /\ Chat.isLoading w2 = true)
  /\ Chat.messages (world s1) = ms ++ [um]
  /\ Chat.isLoading (world s1) = true
  /\ map fst (pool s1) = map fst (pool s) ++ [rq]
  (* the run after the call settled *)
  /\ (exists w4 w5,
      history s2 = history s1 ++ [EvSet w4; EvSet w5]
      /\ Chat.messages w4 = ms ++ [um; bm] /\ Chat.isLoading w4 = true
      /\ Chat.messages w5 = ms ++ [um; bm] /\ Chat.isLoading w5 = false)
  /\ Chat.messages (world s2) = ms ++ [um; bm]
  /\ length (Chat.messages (world s2)) = (length ms + 2)%nat
  /\ Chat.isLoading (world s2) = false
  /\ pool s2 = pool s
  /\ unhandled s2 = unhandled s.
Proof.
  intros H1 H2 Ho Hm. cbv zeta.
  rewrite (submit_accepted amb0 s H1 H2). cbv zeta.
  unfold Chat.step, settle. cbn [pool world history unhandled].
  rewrite nth_error_snoc, remove_nth_snoc.
  unfold spawn, advance. cbn [pool world history unhandled].
  rewrite (resume_resolved amb1 _ _ _ o _ Ho Hm). cbv zeta.
  cbn [final trace result].
  repeat split.
  - do 3 eexists. split; [reflexivity|]. cbn. auto.
  - rewrite map_app. reflexivity.
  - do 2 eexists. split; [reflexivity|]. cbn. rewrite <- app_assoc. auto.
  - cbn. now rewrite <- app_assoc.
  - cbn. rewrite <- app_assoc, length_app. reflexivity.
Qed.

Lemma successful_turn_witness :
  Chat.messages
    (world (Chat.step Sample.later (Chat.Settle 0 (Sample.http 200 Sample.reply_hi))
              (Chat.step Sample.noon Chat.Submit Sample.hello_typed)))
  = [Chat.userMessage (lit "Hello") (now Sample.noon);
     Chat.botMessage (VStr (lit "Hi!")) (now Sample.later)].
Proof.
  apply (successful_turn Sample.noon Sample.later Sample.hello_typed
           (Sample.http 200 Sample.reply_hi) (v := Sample.reply_hi)
           (reply := VStr (lit "Hi!")));
    reflexivity.
Defined.

(** C3. An accepted submission whose call fails, whatever the error.  The
    transcript ends two messages longer; the second is the bot message with
    the fixed fallback text and [isError] true; [isLoading] is cleared; the
    error is logged and is not thrown out of the handler. *)
Theorem failed_turn amb0 amb1 (s : Sys Chat.State) o e :
  Chat.isLoading (world s) = false ->
  whitespace_only (Chat.input (world s)) = false ->
  Api.outcome (Api.sendMessage (VStr (trim (Chat.input (world s)))) true) o
    = Failed e ->
  let ms := Chat.messages (world s) in
  let um := Chat.userMessage (trim (Chat.input (world s))) (now amb0) in
  let em := Chat.errorMessage (now amb1) in
  let s1 := Chat.step amb0 Chat.Submit s in
  let s2 := Chat.step amb1 (Chat.Settle (length (pool s)) o) s1 in
  Chat.messages (world s1) = ms ++ [um]
  /\ Chat.messages (world s2) = ms ++ [um; em]
  /\ length (Chat.messages (world s2)) = (length ms + 2)%nat
  /\ Chat.sender em = Chat.bot
  /\ Chat.text em = VStr Chat.fallback_text
  /\ Chat.isError em = Some true
  /\ Chat.isLoading (world s2) = false
  /\ pool s2 = pool s
  /\ unhandled s2 = unhandled s
  /\ (exists w4 w5,
      history s2 = history s1 ++
        [EvOut (OLog "API Error:" e); EvOut (OLog "Error sending message:" e);
         EvSet w4; EvSet w5]).
Proof.
  intros H1 H2 Ho. cbv zeta.
  rewrite (submit_accepted amb0 s H1 H2). cbv zeta.
  unfold Chat.step, settle. cbn [pool world history unhandled].
  rewrite nth_error_snoc, remove_nth_snoc.
  unfold spawn, advance. cbn [pool world history unhandled].
  rewrite (resume_rejected amb1 _ _ _ o _ Ho). cbv zeta.
  cbn [final trace result].
  repeat split.
  - cbn. now rewrite <- app_assoc.
  - cbn. rewrite <- app_assoc, length_app. reflexivity.
  - do 2 eexists. reflexivity.
Qed.

Lemma failed_turn_witness :
  Chat.messages
    (world (Chat.step Sample.later (Chat.Settle 0 (Sample.http_text 500))
              (Chat.step Sample.noon Chat.Submit Sample.hello_typed)))
  = [Chat.userMessage (lit "Hello") (now Sample.noon);
     Chat.errorMessage (now Sample.later)].
Proof.
  apply (failed_turn Sample.noon Sample.later Sample.hello_typed
           (Sample.http_text 500) (e := HttpError 500));
    reflexivity.
Defined.

Lemma append_only_app cur h1 h2 :
  Chat.append_only cur (h1 ++ h2) <->
  Chat.append_only cur h1 /\ Chat.append_only (Chat.latest cur h1) h2.
Proof.
  revert cur. induction h1 as [|[w|o|rq] h1 IH]; intros cur; simpl.
  - tauto.
  - rewrite IH. tauto.
  - apply IH.
  - apply IH.
Qed.

Lemma latest_app cur h1 h2 :
  Chat.latest cur (h1 ++ h2) = Chat.latest (Chat.latest cur h1) h2.
Proof.
  revert cur. induction h1 as [|[w|o|rq] h1 IH]; intros cur; simpl; auto.
Qed.

Lemma latest_outputs cur (outs : list Output) h :
  Chat.latest cur (map EvOut outs ++ h) = Chat.latest cur h.
Proof. induction outs; simpl; auto. Qed.

Lemma append_only_outputs cur (outs : list Output) h :
  Chat.append_only cur (map EvOut outs ++ h) <-> Chat.append_only cur h.
Proof. induction outs; simpl; tauto. Qed.

(** One turn of the event loop, from a state with no call in flight and
    [isLoading] clear, or with the one call of a suspended
    [handleSendMessage] in flight, [isLoading] set and the transcript that
    handler captured on screen: the transcript is extended at its end or
    left alone, setter by setter, and the same alternative holds again. *)
Lemma turn_extends amb a (s : Sys Chat.State) :
  (pool s = [] /\ Chat.isLoading (world s) = false
   \/ exists rq ms message t0,
        pool s = [(rq, Chat.awaiting_reply ms message t0)]
        /\ Chat.isLoading (world s) = true
        /\ Chat.messages (world s) = ms ++ [Chat.userMessage message t0]) ->
  let s' := Chat.step amb a s in
  (exists suffix, Chat.messages (world s') = Chat.messages (world s) ++ suffix)
  /\ (exists evs, history s' = history s ++ evs
        /\ Chat.append_only (Chat.messages (world s)) evs
        /\ Chat.latest (Chat.messages (world s)) evs = Chat.messages (world s'))
  /\ unhandled s' = unhandled s
  /\ (pool s' = [] /\ Chat.isLoading (world s') = false
      \/ exists rq ms message t0,
        pool s' = [(rq, Chat.awaiting_reply ms message t0)]
        /\ Chat.isLoading (world s') = true
        /\ Chat.messages (world s') = ms ++ [Chat.userMessage message t0]).
Proof.
  intros C. cbv zeta.
  assert (Same : forall x : Sys Chat.State, x = s ->
    (exists suffix, Chat.messages (world x) = Chat.messages (world s) ++ suffix)
    /\ (exists evs, history x = history s ++ evs
        /\ Chat.append_only (Chat.messages (world s)) evs
        /\ Chat.latest (Chat.messages (world s)) evs = Chat.messages (world x))
    /\ unhandled x = unhandled s
    /\ (pool x = [] /\ Chat.isLoading (world x) = false
      \/ exists rq ms message t0,
        pool x = [(rq, Chat.awaiting_reply ms message t0)]
        /\ Chat.isLoading (world x) = true
        /\ Chat.messages (world x) = ms ++ [Chat.userMessage message t0])).
  { intros x ->. repeat split; auto.
    - exists []. now rewrite app_nil_r.
    - exists []. rewrite app_nil_r. simpl. auto. }
  destruct a as [v | | i o].
  - (* typing *)
    cbn. repeat split; auto.
    + exists []. now rewrite app_nil_r.
    + eexists. split; [reflexivity|]. cbn. split; auto. split; auto.
      exists []. now rewrite app_nil_r.
  - (* submission *)
    destruct (Chat.isLoading (world s)) eqn:L.
    { apply Same. apply (submit_ignored amb s). now left. }
    destruct (whitespace_only (Chat.input (world s))) eqn:B.
    { apply Same. apply (submit_ignored amb s). now right. }
    destruct C as [[P _] | (rq & ms & message & t0 & _ & L' & _)];
      [|discriminate].
    rewrite (submit_accepted amb s L B). cbv zeta. cbn [world pool history unhandled].
    rewrite P. cbn.
    repeat split.
    + eexists. reflexivity.
    + eexists. split; [reflexivity|]. cbn.
      repeat split; try (exists []; now rewrite app_nil_r).
      eexists. reflexivity.
    + right. do 4 eexists. repeat split.
  - (* a call settles *)
    unfold Chat.step, settle.
    destruct C as [[P L] | (rq & ms & message & t0 & P & L & M)]; rewrite P.
    { destruct i; cbn; apply Same; reflexivity. }
    destruct i as [|i]; [|destruct i; cbn; apply Same; reflexivity].
    cbn [nth_error remove_nth]. unfold spawn, advance.
    cbn [world pool history unhandled].
    destruct (resume_always amb ms message t0 o (world s)) as (m & outs & E).
    cbv zeta in E. rewrite E. cbn [final trace result].
    repeat split.
    + cbn. rewrite M. eexists. reflexivity.
    + eexists. split; [reflexivity|].
      rewrite append_only_outputs, latest_outputs. cbn. rewrite M.
      repeat split; try (eexists; reflexivity).
      exists []. now rewrite app_nil_r.
    + left. split; reflexivity.
Qed.

Lemma reachable_invariant (s : Sys Chat.State) :
  Chat.reachable s ->
  Chat.append_only [] (history s)
  /\ Chat.latest [] (history s) = Chat.messages (world s)
  /\ unhandled s = []
  /\ (pool s = [] /\ Chat.isLoading (world s) = false
      \/ exists rq ms message t0,
        pool s = [(rq, Chat.awaiting_reply ms message t0)]
        /\ Chat.isLoading (world s) = true
        /\ Chat.messages (world s) = ms ++ [Chat.userMessage message t0]).
Proof.
  induction 1 as [|amb a s R (A & B & U & C)].
  - cbn. repeat split; auto.
  - destruct (turn_extends amb a s C) as (_ & (evs & H & A' & B') & U' & C').
    rewrite H, append_only_app, latest_app, B, U'. auto.
Qed.

(** C8. The transcript of a session is append-only.  In every state a
    session can reach, each setter that ever ran left a transcript that
    extends the one before it (possibly by nothing), the transcript on
    screen is the last of these, and whatever happens next (typing, a
    submission, a call settling with any outcome, a failure included)
    keeps the present transcript as a prefix: no message is changed,
    moved or removed, and the user message appended at submission stays. *)
Theorem transcript_append_only (s : Sys Chat.State) :
  Chat.reachable s ->
  Chat.append_only [] (history s)
  /\ Chat.latest [] (history s) = Chat.messages (world s)
  /\ forall amb a, exists suffix,
       Chat.messages (world (Chat.step amb a s))
       = Chat.messages (world s) ++ suffix.
Proof.
  intros R. destruct (reachable_invariant R) as (A & B & _ & C).
  repeat split; auto.
  intros amb a. apply (turn_extends amb a s C).
Qed.

Lemma transcript_append_only_witness :
  Chat.append_only [] (history Sample.failed_session)
  /\ Chat.latest [] (history Sample.failed_session)
     = Chat.messages (world Sample.failed_session)
  /\ forall amb a, exists suffix,
       Chat.messages (world (Chat.step amb a Sample.failed_session))
       = Chat.messages (world Sample.failed_session) ++ suffix.
Proof.
  apply (transcript_append_only (s := Sample.failed_session)).
  unfold Sample.failed_session, Sample.hello_typed.
  apply Chat.reach_step, Chat.reach_step, Chat.reach_step, Chat.reach_mounted.
Defined.

(** At most one chat request is in flight at a time, and no rejection
    escapes the chat component. *)
Lemma single_flight (s : Sys Chat.State) :
  Chat.reachable s -> (length (pool s) <= 1)%nat /\ unhandled s = [].
Proof.
  intros R.
  destruct (reachable_invariant R) as (_ & _ & U & [[P _] | (? & ? & ? & ? & P & _)]);
    rewrite P; simpl; auto.
Qed.

(* ================================================================== *)
(** ** The file repository view                                         *)
(* ================================================================== *)

Lemma uploadFile_resolved fd o v :
  Api.outcome (Api.uploadFile fd) o = Done v ->
  exists code, o = Responded {| status := code; parsed := Some v |}
               /\ ok {| status := code; parsed := Some v |} = true.
Proof. intros H. api_cases o H. injection H as ->. eauto. Qed.

Lemma uploadFile_rejected fd o e :
  Api.outcome (Api.uploadFile fd) o = Failed e ->
  o = NetFail
  \/ exists r, o = Responded r /\ (ok r = false \/ ok r = true /\ parsed r = None).
Proof. intros H. api_cases o H; eauto 6. Qed.

Lemma deleteFile_resolved fn o v :
  Api.outcome (Api.deleteFile fn) o = Done v ->
  exists code, o = Responded {| status := code; parsed := Some v |}
               /\ ok {| status := code; parsed := Some v |} = true.
Proof. intros H. api_cases o H. injection H as ->. eauto. Qed.

Lemma deleteFile_rejected fn o e :
  Api.outcome (Api.deleteFile fn) o = Failed e ->
  o = NetFail
  \/ exists r, o = Responded r /\ (ok r = false \/ ok r = true /\ parsed r = None).
Proof. intros H. api_cases o H; eauto 6. Qed.

Lemma not_duplicate : jseqb (lit "ok") (lit "duplicate") = false.
Proof. reflexivity. Qed.

Lemma is_duplicate : jseqb (lit "duplicate") (lit "duplicate") = true.
Proof. reflexivity. Qed.

(** C4. An upload attempt with a file selected, the calls it awaits
    settling with any outcomes.  (1) When the upload resolves with
    [status] ["ok"], the calls issued are the upload, then one listing
    fetch, then one RAG status fetch, and no more.  (2) When it resolves
    with [status] ["duplicate"], or (3) when it fails, the upload is the
    only call, and the file listing and RAG status are those of before.
    (4) In every case the handler completes without throwing, [uploading]
    is false and the file input is reset. *)
Theorem upload_attempt amb (event : Files.ChangeEvent) file (w : Files.State) :
  hd_error (Files.target_files event) = Some file ->
  let formData := [(lit "file", file)] in
  let run := fun os => exec amb (Files.handleFileUpload event) os w in
  (forall o1 o2 o3 v,
      Api.outcome (Api.uploadFile formData) o1 = Done v ->
      member v "status" = Some (VStr (lit "ok")) ->
      calls (trace (run [o1; o2; o3])) =
        [Api.upload_request formData; Api.list_request; Api.status_request])
  /\ (forall o1 os v,
      Api.outcome (Api.uploadFile formData) o1 = Done v ->
      member v "status" = Some (VStr (lit "duplicate")) ->
      calls (trace (run (o1 :: os))) = [Api.upload_request formData]
      /\ Files.files (final (run (o1 :: os))) = Files.files w
      /\ Files.ragStatus (final (run (o1 :: os))) = Files.ragStatus w
      /\ result (run (o1 :: os)) = Done tt
      /\ Files.uploading (final (run (o1 :: os))) = false
      /\ Files.picker (final (run (o1 :: os))) = [])
  /\ (forall o1 os e,
      Api.outcome (Api.uploadFile formData) o1 = Failed e ->
      calls (trace (run (o1 :: os))) = [Api.upload_request formData]
      /\ Files.files (final (run (o1 :: os))) = Files.files w
      /\ Files.ragStatus (final (run (o1 :: os))) = Files.ragStatus w
      /\ result (run (o1 :: os)) = Done tt
      /\ Files.uploading (final (run (o1 :: os))) = false
      /\ Files.picker (final (run (o1 :: os))) = [])
  /\ (forall o1 o2 o3,
      result (run [o1; o2; o3]) = Done tt
      /\ Files.uploading (final (run [o1; o2; o3])) = false
      /\ Files.picker (final (run [o1; o2; o3])) = []).
Proof.
  intros Hf. cbv zeta. unfold Files.handleFileUpload. rewrite Hf.
  split; [|split; [|split]].
  - intros o1 o2 o3 v Ho Hs.
    apply uploadFile_resolved in Ho. destruct Ho as (code & -> & Hok).
    cbn. unfold Api.check_ok. rewrite Hok. cbn. unfold prop. rewrite Hs. cbn.
    rewrite not_duplicate.
    unfold Files.loadFiles, Files.loadRAGStatus, Api.check_ok, prop.
    settle_all; reflexivity.
  - intros o1 os v Ho Hs.
    apply uploadFile_resolved in Ho. destruct Ho as (code & -> & Hok).
    cbn. unfold Api.check_ok. rewrite Hok. cbn. unfold prop. rewrite Hs. cbn.
    rewrite is_duplicate. cbn. repeat split.
  - intros o1 os e Ho.
    apply uploadFile_rejected in Ho.
    destruct Ho as [-> | (r & -> & [Hok | [Hok P]])]; cbn;
      unfold Api.check_ok; try rewrite Hok; cbn;
      try (unfold Api.json; rewrite P); cbn; repeat split.
  - intros o1 o2 o3.
    unfold Api.uploadFile, Files.loadFiles, Files.loadRAGStatus, Api.check_ok, prop.
    settle_all; repeat split.
Qed.

Lemma upload_attempt_witness :
  calls (trace (exec Sample.noon (Files.handleFileUpload Sample.pick_report)
                  [Sample.http 200 Sample.upload_ok; Sample.http 200 Sample.listing;
                   NetFail] Files.initial))
  = [Api.upload_request [(lit "file", Sample.report_pdf)]; Api.list_request;
     Api.status_request]
  /\ Files.uploading
       (final (exec Sample.noon (Files.handleFileUpload Sample.pick_report)
                 [Sample.http 200 Sample.upload_ok; Sample.http 200 Sample.listing;
                  NetFail] Files.initial))
     = false.
Proof.
  destruct (upload_attempt Sample.noon Sample.pick_report
              (file := Sample.report_pdf) Files.initial eq_refl)
    as (Stored & _ & _ & Every).
  split.
  - apply (Stored _ _ _ Sample.upload_ok); reflexivity.
  - apply Every.
Defined.

(** C10. With no file selected the upload handler returns at once: no
    call is issued, no setter runs ([uploading] is never set), the file
    input is not reset, and listing and status are untouched. *)
Theorem upload_without_file amb (event : Files.ChangeEvent) os (w : Files.State) :
  hd_error (Files.target_files event) = None ->
  exec amb (Files.handleFileUpload event) os w
  = {| final := w; trace := []; result := Done tt |}.
Proof.
  intros H. unfold Files.handleFileUpload. rewrite H. reflexivity.
Qed.

Lemma upload_without_file_witness :
  exec Sample.noon (Files.handleFileUpload Sample.pick_nothing)
    [NetFail] Files.initial
  = {| final := Files.initial; trace := []; result := Done tt |}.
Proof.
  apply (upload_without_file Sample.noon Sample.pick_nothing [NetFail]
           Files.initial).
  reflexivity.
Defined.

(** C5. A delete request.  Declined in the confirmation dialog: no call
    is issued and no setter runs.  Confirmed: when the delete call
    succeeds, the calls issued are the delete, then one listing fetch,
    then one RAG status fetch; when it fails, the delete is the only call
    and no setter runs.  Nothing is thrown out of the handler. *)
Theorem delete_request_gated amb filename (w : Files.State) :
  let run := fun os => exec amb (Files.handleDeleteFile filename) os w in
  (confirms amb filename = false ->
     forall os,
       calls (trace (run os)) = []
       /\ states (trace (run os)) = []
       /\ final (run os) = w
       /\ result (run os) = Done tt)
  /\ (confirms amb filename = true ->
      (forall o1 o2 o3 v,
         Api.outcome (Api.deleteFile filename) o1 = Done v ->
         calls (trace (run [o1; o2; o3])) =
           [Api.delete_request filename; Api.list_request; Api.status_request]
         /\ result (run [o1; o2; o3]) = Done tt)
      /\ (forall o1 os e,
         Api.outcome (Api.deleteFile filename) o1 = Failed e ->
         calls (trace (run (o1 :: os))) = [Api.delete_request filename]
         /\ states (trace (run (o1 :: os))) = []
         /\ final (run (o1 :: os)) = w
         /\ result (run (o1 :: os)) = Done tt)).
Proof.
  cbv zeta. unfold Files.handleDeleteFile. split; intros C.
  - intros os. cbn. rewrite C. cbn. repeat split.
  - split.
    + intros o1 o2 o3 v Ho.
      apply deleteFile_resolved in Ho. destruct Ho as (code & -> & Hok).
      cbn. rewrite C. cbn. unfold Api.check_ok. rewrite Hok. cbn.
      unfold Files.loadFiles, Files.loadRAGStatus.
      settle_all; split; reflexivity.
    + intros o1 os e Ho.
      apply deleteFile_rejected in Ho.
      destruct Ho as [-> | (r & -> & [Hok | [Hok P]])]; cbn; rewrite C; cbn;
        unfold Api.check_ok; try rewrite Hok; cbn;
        try (unfold Api.json; rewrite P); cbn; repeat split.
Qed.

Lemma delete_request_gated_witness :
  (forall os,
     let r := exec Sample.later (Files.handleDeleteFile (lit "report.pdf"))
                os Files.initial in
     calls (trace r) = [] /\ states (trace r) = []
     /\ final r = Files.initial /\ result r = Done tt)
  /\ (forall o2 o3,
     let r := exec Sample.noon (Files.handleDeleteFile (lit "report.pdf"))
                [Sample.http 200 (VObj []); o2; o3] Files.initial in
     calls (trace r) =
       [Api.delete_request (lit "report.pdf"); Api.list_request;
        Api.status_request]
     /\ result r = Done tt).
Proof.
  split.
  - apply (delete_request_gated Sample.later (lit "report.pdf") Files.initial).
    reflexivity.
  - intros o2 o3.
    destruct (delete_request_gated Sample.noon (lit "report.pdf") Files.initial)
      as [_ Confirmed].
    destruct (Confirmed eq_refl) as [Succeeds _].
    apply (Succeeds _ o2 o3 (VObj [])). reflexivity.
Defined.

Lemma reinitialize_settles o :
  Api.outcome Api.reinitialize o =
  match o with
  | NetFail => Failed FetchTypeError
  | Responded r =>
      match parsed r with
      | Some v => Done v
      | None => Failed JsonSyntaxError
      end
  end.
Proof. destruct o as [|[code [v|]]]; reflexivity. Qed.

Lemma getStatus_settles o :
  Api.outcome Api.getStatus o =
  match o with
  | NetFail => Failed FetchTypeError
  | Responded r =>
      match parsed r with
      | Some v => Done v
      | None => Failed JsonSyntaxError
      end
  end.
Proof. destruct o as [|[code [v|]]]; reflexivity. Qed.

(** C9, as stated, fails: a reinitialize call that settles by rejecting
    (here the transport fails) is logged and schedules no status refresh,
    although the handler completes. *)
Lemma reinitialize_failure_schedules_nothing :
  let r := exec Sample.noon Files.handleReinitializeRAG [NetFail] Files.initial in
  Api.outcome Api.reinitialize NetFail = Failed FetchTypeError
  /\ result r = Done tt
  /\ timers (trace r) = []
  /\ length (timers (trace r)) <> 1%nat.
Proof. cbn. repeat split. discriminate. Qed.

(** C9, amended.  When the reinitialize call succeeds, the handler
    shows its notice and registers exactly one timer, for [loadRAGStatus]
    with a delay of 3000 ms, and issues no other call; when the call
    fails, the error is logged, and nothing else is shown or registered:
    no timer.  Either way the handler completes and sets no state.  The
    timer's callback, when it fires, issues one RAG status fetch and
    registers no further timer. *)
Theorem reinitialize_schedules_one_refresh amb o (w : Files.State) :
  let r := exec amb Files.handleReinitializeRAG [o] w in
  (forall v, Api.outcome Api.reinitialize o = Done v ->
     timers (trace r) = [(CbLoadRAGStatus, 3000)]
     /\ calls (trace r) = [Api.reinitialize_request]
     /\ result r = Done tt
     /\ outputs (trace r) =
          [OAlert NoticeReinitializing; OTimer CbLoadRAGStatus 3000]
     /\ states (trace r) = [])
  /\ (forall e, Api.outcome Api.reinitialize o = Failed e ->
     timers (trace r) = []
     /\ calls (trace r) = [Api.reinitialize_request]
     /\ result r = Done tt
     /\ outputs (trace r) = [OLog "Error reinitializing RAG:" e]
     /\ states (trace r) = [])
  /\ (forall o' w',
     let r' := exec amb (Files.callback CbLoadRAGStatus) [o'] w' in
     calls (trace r') = [Api.status_request]
     /\ timers (trace r') = []
     /\ result r' = Done tt).
Proof.
  cbv zeta. split; [|split].
  - intros v. rewrite reinitialize_settles.
    destruct o as [|[code [b|]]]; cbn; try discriminate. repeat split.
  - intros e. rewrite reinitialize_settles.
    destruct o as [|[code [b|]]]; cbn; try discriminate;
      intros E; injection E as <-; repeat split.
  - intros o' w'. destruct o' as [|[code [b|]]]; cbn; repeat split.
Qed.

Lemma reinitialize_schedules_one_refresh_witness :
  timers (trace (exec Sample.noon Files.handleReinitializeRAG
                   [Sample.http 503 (VObj [])] Files.initial))
  = [(CbLoadRAGStatus, 3000)].
Proof.
  apply (reinitialize_schedules_one_refresh Sample.noon
           (Sample.http 503 (VObj [])) Files.initial) with (v := VObj []).
  reflexivity.
Defined.

(** C7. Mounting the view issues the listing fetch and the RAG status
    fetch in one synchronous run, so both are in flight before either
    settles.  They may settle in either order, with any outcomes: both
    tasks complete, nothing is thrown out of them, and the final state is
    the same in both orders.  A listing fetch that fails leaves [files] at
    its initial empty list and the status fetch still stores what it
    received; a status fetch that fails leaves [ragStatus] at its initial
    empty object (shown as not initialized, 0 files) and the listing
    fetch still stores the files it received. *)
Theorem mount_fetches_independent amb0 amb1 amb2 o_files o_rag :
  let s0 := Files.mount amb0 Files.unmounted in
  let files_first := settle amb2 0 o_rag (settle amb1 0 o_files s0) in
  let rag_first := settle amb2 0 o_files (settle amb1 1 o_rag s0) in
  history s0 = [EvFetch Api.list_request; EvFetch Api.status_request]
  /\ map fst (pool s0) = [Api.list_request; Api.status_request]
  /\ world s0 = Files.initial
  /\ map fst (pool (settle amb1 0 o_files s0)) = [Api.status_request]
  /\ map fst (pool (settle amb1 1 o_rag s0)) = [Api.list_request]
  /\ pool files_first = [] /\ pool rag_first = []
  /\ unhandled files_first = [] /\ unhandled rag_first = []
  /\ calls (history files_first) = [Api.list_request; Api.status_request]
  /\ calls (history rag_first) = [Api.list_request; Api.status_request]
  /\ world files_first = world rag_first
  /\ (forall e, Api.outcome Api.listFiles o_files = Failed e ->
        Files.files (world files_first) = VArr []
        /\ forall v, Api.outcome Api.getStatus o_rag = Done v ->
                     Files.ragStatus (world files_first) = v)
  /\ (forall e, Api.outcome Api.getStatus o_rag = Failed e ->
        Files.ragStatus (world files_first) = VObj []
        /\ Files.shown_initialized (world files_first) = Some false
        /\ Files.shown_fileCount (world files_first) = Some (VNum 0)
        /\ forall v fs, Api.outcome Api.listFiles o_files = Done v ->
                        member v "files" = Some fs ->
                        Files.files (world files_first) = fs).
Proof.
  cbv zeta. unfold Api.outcome.
  destruct o_files as [|[c1 [b1|]]], o_rag as [|[c2 [b2|]]];
    cbn; unfold Api.check_ok; cbn;
    try (destruct (ok _) eqn:Hok; cbn);
    try (unfold prop; destruct (member b1 "files") eqn:M; cbn);
    repeat split; intros; cbn in *; try discriminate; try congruence.
Qed.

Lemma mount_fetches_independent_witness :
  let status := VObj [(lit "rag_initialized", VBool true);
                      (lit "file_count", VNum 2)] in
  let s := settle Sample.later 0 (Sample.http 200 status)
             (settle Sample.later 0 NetFail
                (Files.mount Sample.noon Files.unmounted)) in
  Files.files (world s) = VArr [] /\ Files.ragStatus (world s) = status.
Proof.
  cbv zeta.
  destruct (mount_fetches_independent Sample.noon Sample.later Sample.later
              NetFail
              (Sample.http 200 (VObj [(lit "rag_initialized", VBool true);
                                      (lit "file_count", VNum 2)])))
    as (_ & _ & _ & _ & _ & _ & _ & _ & _ & _ & _ & _ & ListingFails & _).
  destruct (ListingFails FetchTypeError eq_refl) as [Empty Status].
  split; [exact Empty | apply Status; reflexivity].
Defined.

(* ================================================================== *)
(** ** The API client and HTTP status codes                             *)
(* ================================================================== *)

(** C6, as stated, fails for the two RAG operations: on a non-2xx response
    whose body is not JSON, such as a plain-text 500 page,
    [response.json()] rejects and the operation raises. *)
Lemma rag_operations_raise_on_unparsable_500 :
  ok {| status := 500; parsed := None |} = false
  /\ Api.outcome Api.getStatus (Sample.http_text 500) = Failed JsonSyntaxError
  /\ Api.outcome Api.reinitialize (Sample.http_text 500) = Failed JsonSyntaxError.
Proof. repeat split. Qed.

(** C6, amended.  On a response whose status is not 2xx, send chat
    message, upload file, delete file and list files raise the HTTP status
    error, a NetworkError.  Get RAG status and reinitialize do not look at
    the status: they return the parsed body when the body is JSON, and
    raise only when it is not, with the parser's error, which is not a
    NetworkError. *)
Theorem non_2xx_per_operation (r : Response) :
  ok r = false ->
  (forall message useRAG,
     Api.outcome (Api.sendMessage message useRAG) (Responded r)
     = Failed (HttpError (status r)))
  /\ (forall formData,
     Api.outcome (Api.uploadFile formData) (Responded r)
     = Failed (HttpError (status r)))
  /\ (forall filename,
     Api.outcome (Api.deleteFile filename) (Responded r)
     = Failed (HttpError (status r)))
  /\ Api.outcome Api.listFiles (Responded r) = Failed (HttpError (status r))
  /\ NetworkError (HttpError (status r)) = true
  /\ Api.outcome Api.getStatus (Responded r)
     = match parsed r with
       | Some v => Done v
       | None => Failed JsonSyntaxError
       end
  /\ Api.outcome Api.reinitialize (Responded r)
     = match parsed r with
       | Some v => Done v
       | None => Failed JsonSyntaxError
       end
  /\ NetworkError JsonSyntaxError = false.
Proof.
  intros Hok. unfold Api.outcome.
  repeat split; intros; cbn; unfold Api.check_ok; try rewrite Hok; cbn;
    try reflexivity; unfold Api.json; destruct (parsed r); reflexivity.
Qed.

Lemma non_2xx_per_operation_witness :
  Api.outcome Api.listFiles (Sample.http 404 (VObj []))
  = Failed (HttpError 404)
  /\ Api.outcome Api.getStatus (Sample.http 404 (VObj [])) = Done (VObj []).
Proof.
  split;
    apply (non_2xx_per_operation {| status := 404; parsed := Some (VObj []) |});
    reflexivity.
Defined.

Lemma outputs_app {W} (h1 h2 : list (Event W)) :
  outputs (h1 ++ h2) = outputs h1 ++ outputs h2.
Proof.
  induction h1 as [|[w|o|rq] h1 IH]; simpl; auto. now rewrite IH.
Qed.

(* ================================================================== *)
(** ** More on [trim]                                                   *)
(* ================================================================== *)

Lemma trimStart_head s c r : trimStart s = c :: r -> is_ws c = false.
Proof.
  induction s as [|x s IH]; simpl; [discriminate|].
  destruct (is_ws x) eqn:E; [exact IH|].
  intros H. injection H as <- _. exact E.
Qed.

Lemma trimStart_fixed s :
  (forall c r, s = c :: r -> is_ws c = false) -> trimStart s = s.
Proof.
  destruct s as [|c r]; simpl; [reflexivity|].
  intros H. now rewrite (H c r eq_refl).
Qed.

Lemma trimStart_before_solid l c r :
  is_ws c = false -> trimStart (l ++ c :: r) = trimStart l ++ c :: r.
Proof.
  intros Hc. induction l as [|x l IH]; simpl.
  - now rewrite Hc.
  - destruct (is_ws x); [exact IH | reflexivity].
Qed.

Lemma trimEnd_cons_solid c r :
  is_ws c = false -> trimEnd (c :: r) = c :: trimEnd r.
Proof.
  intros Hc. unfold trimEnd. simpl.
  rewrite (@trimStart_before_solid (rev r) c [] Hc), rev_app_distr. reflexivity.
Qed.

Lemma trimEnd_last s r c : trimEnd s = r ++ [c] -> is_ws c = false.
Proof.
  unfold trimEnd. intros H.
  apply (f_equal (@rev N)) in H. rewrite rev_involutive, rev_app_distr in H.
  simpl in H. exact (@trimStart_head _ _ _ H).
Qed.

Lemma trimEnd_fixed s :
  (forall r c, s = r ++ [c] -> is_ws c = false) -> trimEnd s = s.
Proof.
  intros H. unfold trimEnd. rewrite trimStart_fixed; [apply rev_involutive|].
  intros c r E. apply (H (rev r) c).
  rewrite <- (rev_involutive s), E. reflexivity.
Qed.

(** The head of a trimmed string is solid. *)
Lemma trim_head s c r : trim s = c :: r -> is_ws c = false.
Proof.
  unfold trim. destruct (trimStart s) as [|x y] eqn:E.
  - discriminate.
  - pose proof (@trimStart_head s x y E) as Hx.
    rewrite (@trimEnd_cons_solid x y Hx). intros H. injection H as <- _. exact Hx.
Qed.

Lemma trim_last s r c : trim s = r ++ [c] -> is_ws c = false.
Proof. apply trimEnd_last. Qed.

(** Trimming twice is trimming once. *)
Lemma trim_idempotent s : trim (trim s) = trim s.
Proof.
  unfold trim at 1.
  rewrite (@trimStart_fixed (trim s)) by (intros c r; apply trim_head).
  apply trimEnd_fixed. intros r c. apply trim_last.
Qed.

Lemma trim_sendable s :
  whitespace_only s = false -> Transcript.sendable (VStr (trim s)).
Proof.
  intros H. exists (trim s). repeat split.
  - intros E. apply trim_nil_iff in E. congruence.
  - apply trim_idempotent.
  - intros c r. apply trim_head.
  - intros r c. apply trim_last.
Qed.

(* ================================================================== *)
(** ** The chat session, turn by turn                                   *)
(* ================================================================== *)

Lemma calls_outputs {W} (outs : list Output) (h : list (Event W)) :
  calls (map EvOut outs ++ h) = calls h.
Proof. induction outs; simpl; auto. Qed.

Lemma reachable_between_turns (s : Sys Chat.State) :
  Chat.reachable s -> between_turns s.
Proof. intros R. apply (reachable_invariant R). Qed.

(** The message a resumed handler appends is a bot message. *)
Lemma resume_appends_bot amb ms message t0 o (w : Chat.State) :
  exists m outs,
    Chat.sender m = Chat.bot /\
    let w1 := Chat.setMessages ((ms ++ [Chat.userMessage message t0]) ++ [m]) w in
    exec amb (Chat.awaiting_reply ms message t0 o) [] w =
    {| final := Chat.setIsLoading false w1;
       trace := map EvOut outs ++ [EvSet w1; EvSet (Chat.setIsLoading false w1)];
       result := Done tt |}.
Proof.
  destruct o as [|[code [body|]]]; cbn; unfold Api.check_ok; cbn.
  - eexists _, [_; _]. split; [|reflexivity]. reflexivity.
  - destruct (ok _); cbn.
    + unfold prop. destruct (member body "reply") eqn:M; cbn.
      * eexists _, []. split; [|reflexivity]. reflexivity.
      * eexists _, [_]. split; [|reflexivity]. reflexivity.
    + eexists _, [_; _]. split; [|reflexivity]. reflexivity.
  - destruct (ok _); cbn; eexists _, [_; _]; (split; [|reflexivity]); reflexivity.
Qed.

(** What one turn of the event loop can be: nothing the transcript or the
    network sees; an accepted submission; or the reply to the call in
    flight. *)
Lemma turn_cases amb a (s : Sys Chat.State) :
  between_turns s ->
  let s' := Chat.step amb a s in
  (Chat.messages (world s') = Chat.messages (world s)
   /\ calls (history s') = calls (history s)
   /\ pool s' = pool s
   /\ Chat.isLoading (world s') = Chat.isLoading (world s))
  \/ (Chat.isLoading (world s) = false
      /\ whitespace_only (Chat.input (world s)) = false
      /\ Chat.messages (world s') =
           Chat.messages (world s)
           ++ [Chat.userMessage (trim (Chat.input (world s))) (now amb)]
      /\ calls (history s') =
           calls (history s)
           ++ [Api.chat_request (VStr (trim (Chat.input (world s)))) true]
      /\ Chat.isLoading (world s') = true
      /\ length (pool s') = 1%nat)
  \/ (Chat.isLoading (world s) = true
      /\ (exists m, Chat.sender m = Chat.bot
            /\ Chat.messages (world s') = Chat.messages (world s) ++ [m])
      /\ calls (history s') = calls (history s)
      /\ Chat.isLoading (world s') = false
      /\ pool s' = []).
Proof.
  intros C. cbv zeta.
  destruct a as [v | | i o].
  - left. cbn. rewrite calls_app. cbn. rewrite app_nil_r. auto.
  - destruct (Chat.isLoading (world s)) eqn:L.
    { left. rewrite (submit_ignored amb s) by (left; exact L). auto. }
    destruct (whitespace_only (Chat.input (world s))) eqn:B.
    { left. rewrite (submit_ignored amb s) by (right; exact B). auto. }
    right. left.
    destruct C as [[P _] | (rq & ms & message & t0 & _ & L' & _)];
      [|congruence].
    rewrite (submit_accepted amb s L B). cbv zeta.
    cbn [world pool history unhandled]. rewrite P, calls_app. cbn.
    repeat split.
  - unfold Chat.step, settle.
    destruct C as [[P L] | (rq & ms & message & t0 & P & L & M)]; rewrite P.
    { left. destruct i; cbn; auto. }
    destruct i as [|i]; [|left; destruct i; cbn; auto].
    right. right.
    cbn [nth_error remove_nth]. unfold spawn, advance.
    cbn [world pool history unhandled].
    destruct (resume_appends_bot amb ms message t0 o (world s))
      as (m & outs & Hm & E).
    cbv zeta in E. rewrite E. cbn [final trace result].
    rewrite calls_app, calls_outputs. cbn. rewrite app_nil_r, M.
    repeat split; auto. exists m. auto.
Qed.

Lemma alternates_snoc e ms m :
  Transcript.alternates e (ms ++ [m]) =
  Transcript.alternates e ms
  && Transcript.sender_eqb (Chat.sender m)
       (if Nat.even (length ms) then e else Transcript.other e).
Proof.
  revert e. induction ms as [|x ms IH]; intros e;
    cbn [Transcript.alternates app length].
  - cbn. now rewrite andb_true_r.
  - rewrite IH, Nat.even_succ, <- Nat.negb_even, andb_assoc.
    destruct (Nat.even (length ms)), e; reflexivity.
Qed.

(** What every reachable transcript looks like, and the calls behind it. *)
Lemma session_shape (s : Sys Chat.State) :
  Chat.reachable s ->
  let ms := Chat.messages (world s) in
  Transcript.alternates Chat.user ms = true
  /\ Chat.isLoading (world s) = Nat.odd (length ms)
  /\ Forall (fun m => Transcript.from_user m = true ->
                      Transcript.sendable (Chat.text m)) ms
  /\ calls (history s) =
       map Transcript.request_for (filter Transcript.from_user ms).
Proof.
  cbv zeta. induction 1 as [|amb a s R (A & L & T & K)].
  - cbn. auto.
  - destruct (turn_cases amb a (reachable_between_turns R))
      as [(M & K' & _ & L')
         | [(L0 & B & M & K' & L' & _)
           | (L0 & (m & Hm & M) & K' & L' & _)]];
      rewrite M, K', L'.
    + auto.
    + assert (E : Nat.even (length (Chat.messages (world s))) = true).
      { rewrite <- Nat.negb_odd, <- L, L0. reflexivity. }
      rewrite alternates_snoc, A, E, length_app, filter_app, map_app, K.
      cbn. rewrite Nat.add_1_r, Nat.odd_succ, E.
      repeat split.
      apply Forall_app. split; [exact T|].
      constructor; [|constructor]. intros _. apply trim_sendable, B.
    + assert (E : Nat.even (length (Chat.messages (world s))) = false).
      { rewrite <- Nat.negb_odd, <- L, L0. reflexivity. }
      rewrite alternates_snoc, A, E, length_app, filter_app, map_app, K.
      cbn. rewrite Nat.add_1_r, Nat.odd_succ, E.
      unfold Transcript.from_user. rewrite Hm. cbn. rewrite !app_nil_r.
      repeat split.
      apply Forall_app. split; [exact T|].
      constructor; [|constructor]. unfold Transcript.from_user. rewrite Hm.
      discriminate.
Qed.

(** X1. Every user message of a reachable transcript carries a text
    that is a non-empty string with no white space at either end: what
    was typed, trimmed. *)
Theorem user_messages_are_trimmed (s : Sys Chat.State) :
  Chat.reachable s ->
  Forall (fun m => Transcript.from_user m = true ->
                   Transcript.sendable (Chat.text m))
    (Chat.messages (world s)).
Proof. intros R. apply (session_shape R). Qed.

(** X2. In a reachable transcript the senders alternate, beginning with
    the user, and a reply is awaited exactly when the transcript has an
    odd number of messages (its last message is then the user's). *)
Theorem transcript_alternates (s : Sys Chat.State) :
  Chat.reachable s ->
  Transcript.alternates Chat.user (Chat.messages (world s)) = true
  /\ Chat.isLoading (world s) = Nat.odd (length (Chat.messages (world s))).
Proof. intros R. split; apply (session_shape R). Qed.

(** X3. The chat has issued exactly one call per user message of the
    transcript, in the same order, each a POST to /chat carrying that
    message's text with [use_rag] true. *)
Theorem one_call_per_user_message (s : Sys Chat.State) :
  Chat.reachable s ->
  calls (history s) =
  map Transcript.request_for
    (filter Transcript.from_user (Chat.messages (world s))).
Proof. intros R. apply (session_shape R). Qed.

(** X4. In a reachable chat [isLoading] is true exactly when a call is in
    flight; there is never more than one, and no rejection has gone
    unhandled. *)
Theorem loading_iff_call_in_flight (s : Sys Chat.State) :
  Chat.reachable s ->
  (Chat.isLoading (world s) = true <-> pool s <> [])
  /\ (length (pool s) <= 1)%nat
  /\ unhandled s = [].
Proof.
  intros R.
  destruct (reachable_invariant R)
    as (_ & _ & U & [[P L] | (? & ? & ? & ? & P & L & _)]);
    rewrite P, L; cbn; repeat split; auto; try discriminate; congruence.
Qed.

Lemma failed_session_reachable : Chat.reachable Sample.failed_session.
Proof.
  unfold Sample.failed_session, Sample.hello_typed.
  apply Chat.reach_step, Chat.reach_step, Chat.reach_step, Chat.reach_mounted.
Qed.

Lemma user_messages_are_trimmed_witness :
  Forall (fun m => Transcript.from_user m = true ->
                   Transcript.sendable (Chat.text m))
    (Chat.messages (world Sample.failed_session)).
Proof.
  apply (user_messages_are_trimmed failed_session_reachable).
Defined.

Lemma transcript_alternates_witness :
  Transcript.alternates Chat.user (Chat.messages (world Sample.failed_session))
  = true
  /\ Chat.isLoading (world Sample.failed_session)
     = Nat.odd (length (Chat.messages (world Sample.failed_session))).
Proof.
  apply (transcript_alternates failed_session_reachable).
Defined.

Lemma one_call_per_user_message_witness :
  calls (history Sample.failed_session) =
  [Api.chat_request (VStr (lit "Hello")) true].
Proof.
  apply (one_call_per_user_message failed_session_reachable).
Defined.

Lemma loading_iff_call_in_flight_witness :
  (Chat.isLoading (world Sample.failed_session) = true
   <-> pool Sample.failed_session <> [])
  /\ (length (pool Sample.failed_session) <= 1)%nat
  /\ unhandled Sample.failed_session = [].
Proof.
  apply (loading_iff_call_in_flight failed_session_reachable).
Defined.

(** X5. The Send button is disabled exactly when a submission would be
    ignored: with the button disabled, submitting changes nothing; with
    it enabled, submitting issues the chat call and sets [isLoading].
    Pressing Enter without Shift is that same submission, and Shift+Enter
    or any other key does nothing. *)
Theorem send_button_mirrors_guard amb (s : Sys Chat.State) :
  let disabled :=
    InputBox.send_disabled (Chat.isLoading (world s)) (Chat.input (world s)) in
  (disabled = true -> Chat.step amb Chat.Submit s = s)
  /\ (disabled = false ->
      calls (history (Chat.step amb Chat.Submit s)) =
        calls (history s)
        ++ [Api.chat_request (VStr (trim (Chat.input (world s)))) true]
      /\ Chat.isLoading (world (Chat.step amb Chat.Submit s)) = true
      /\ Chat.input (world (Chat.step amb Chat.Submit s)) = [])
  /\ (forall shift,
      InputBox.keypress amb
        {| InputBox.key := lit "Enter"; InputBox.shiftKey := shift |} s
      = if shift then s else Chat.step amb Chat.Submit s)
  /\ (forall e, jseqb (InputBox.key e) (lit "Enter") = false ->
      InputBox.keypress amb e s = s).
Proof.
  cbv zeta. unfold InputBox.send_disabled. rewrite truthy_trim, negb_involutive.
  split; [|split; [|split]].
  - intros D. apply submit_ignored. now apply orb_true_iff.
  - intros D. apply orb_false_iff in D. destruct D as [L B].
    rewrite (submit_accepted amb s L B). cbv zeta. cbn.
    rewrite calls_app. cbn. rewrite ?app_nil_r. repeat split.
  - intros [|]; reflexivity.
  - intros e E. unfold InputBox.keypress, InputBox.handleKeyPress.
    now rewrite E.
Qed.

Lemma send_button_mirrors_guard_witness :
  Chat.step Sample.noon Chat.Submit Sample.blank_typed = Sample.blank_typed
  /\ Chat.isLoading (world (Chat.step Sample.noon Chat.Submit Sample.hello_typed))
     = true.
Proof.
  split.
  - apply (send_button_mirrors_guard Sample.noon Sample.blank_typed).
    reflexivity.
  - apply (send_button_mirrors_guard Sample.noon Sample.hello_typed).
    reflexivity.
Defined.

(** X6. Submitting twice in a row is submitting once: whatever the first
    submission did, a second one straight after it is ignored. *)
Theorem submit_twice_is_once amb amb' (s : Sys Chat.State) :
  Chat.step amb' Chat.Submit (Chat.step amb Chat.Submit s)
  = Chat.step amb Chat.Submit s.
Proof.
  destruct (Chat.isLoading (world s)) eqn:L.
  { rewrite (submit_ignored amb s) by (left; exact L).
    apply submit_ignored. left. exact L. }
  destruct (whitespace_only (Chat.input (world s))) eqn:B.
  { rewrite (submit_ignored amb s) by (right; exact B).
    apply submit_ignored. right. exact B. }
  apply submit_ignored. left.
  rewrite (submit_accepted amb s L B). reflexivity.
Qed.

(** X7. Two replies that are not the expected object.  A 2xx response
    whose body is JSON [null] is treated like a failed call: reading
    [reply] throws, the fallback error message is appended, and only the
    component's own line is logged.  A 2xx response that is an object
    without a [reply] property is a success: the bot message appended has
    the text [undefined] and no error flag. *)
Theorem replies_without_reply amb0 amb1 (s : Sys Chat.State) code :
  Chat.isLoading (world s) = false ->
  whitespace_only (Chat.input (world s)) = false ->
  (200 <= code <= 299) ->
  let ms := Chat.messages (world s) in
  let um := Chat.userMessage (trim (Chat.input (world s))) (now amb0) in
  let s1 := Chat.step amb0 Chat.Submit s in
  let settled v :=
    Chat.step amb1
      (Chat.Settle (length (pool s)) (Responded {| status := code; parsed := Some v |}))
      s1 in
  (Chat.messages (world (settled VNull)) = ms ++ [um; Chat.errorMessage (now amb1)]
   /\ outputs (history (settled VNull)) =
        outputs (history s) ++ [OLog "Error sending message:" NullishTypeError])
  /\ (forall fs, own (lit "reply") fs = None ->
      Chat.messages (world (settled (VObj fs))) =
        ms ++ [um; Chat.botMessage VUndef (now amb1)]
      /\ outputs (history (settled (VObj fs))) = outputs (history s)).
Proof.
  intros L B Hc. cbv zeta.
  assert (Hok : forall v, ok {| status := code; parsed := Some v |} = true).
  { intros v. unfold ok. cbn. apply andb_true_iff. split; apply Z.leb_le; lia. }
  rewrite (submit_accepted amb0 s L B). cbv zeta.
  unfold Chat.step, settle. cbn [pool world history unhandled].
  rewrite nth_error_snoc, remove_nth_snoc.
  unfold spawn, advance. cbn [pool world history unhandled].
  split.
  - rewrite (@resume_null_response amb1 _ _ _ code _ (Hok VNull)). cbv zeta.
    cbn [final trace result world history].
    split.
    + cbn. now rewrite <- app_assoc.
    + rewrite !outputs_app. cbn. now rewrite app_nil_r.
  - intros fs Hfs.
    assert (Ho : Api.outcome
                   (Api.sendMessage (VStr (trim (Chat.input (world s)))) true)
                   (Responded {| status := code; parsed := Some (VObj fs) |})
                 = Done (VObj fs)).
    { unfold Api.outcome. cbn. unfold Api.check_ok. rewrite Hok. reflexivity. }
    assert (Hm : member (VObj fs) "reply" = Some VUndef).
    { cbn. now rewrite Hfs. }
    rewrite (@resume_resolved amb1 _ _ _ _ _ _ _ Ho Hm). cbv zeta.
    cbn [final trace result world history].
    split.
    + cbn. now rewrite <- app_assoc.
    + rewrite !outputs_app. cbn. now rewrite !app_nil_r.
Qed.

Lemma replies_without_reply_witness :
  Chat.messages
    (world (Chat.step Sample.later (Chat.Settle 0 (Sample.http 200 VNull))
              (Chat.step Sample.noon Chat.Submit Sample.hello_typed)))
  = [Chat.userMessage (lit "Hello") (now Sample.noon);
     Chat.errorMessage (now Sample.later)].
Proof.
  apply (replies_without_reply Sample.noon Sample.later Sample.hello_typed
           (code := 200)); [reflexivity | reflexivity | lia].
Defined.

(* ================================================================== *)
(** ** What tasks never do: the general facts                           *)
(* ================================================================== *)

(** A task whose setters respect a preorder [R] never ends in a throw,
    leaves a state related to the one it started from, and suspends with
    a rest that respects [R] again. *)
Lemma respects_exec {W A} (R : W -> W -> Prop) (t : Task W A) :
  (forall w, R w w) ->
  (forall a b c, R a b -> R b c -> R a c) ->
  respects R t ->
  forall amb os w,
    R w (final (exec amb t os w))
    /\ match result (exec amb t os w) with
       | Done _ => True
       | Failed _ => False
       | Blocked _ k => forall o, respects R (k o)
       end.
Proof.
  intros Hrefl Htrans.
  induction t as [a | e | k IH | q k IH | f k IH | o k IH | rq k IH];
    cbn [respects exec]; intros H amb os w.
  - cbn. auto.
  - contradiction.
  - apply IH, H.
  - cbn. apply IH, H.
  - destruct H as [Hf Hk]. cbn.
    destruct (IH Hk amb os (f w)) as [Hr Hs]. split; [|exact Hs].
    exact (Htrans _ _ _ (Hf w) Hr).
  - cbn. apply IH, H.
  - destruct os as [|o os]; cbn.
    + split; [apply Hrefl | exact H].
    + apply IH, H.
Qed.

Lemma keeps_upload_refl w : View.keeps_upload w w.
Proof. split; reflexivity. Qed.

Lemma keeps_upload_trans a b c :
  View.keeps_upload a b -> View.keeps_upload b c -> View.keeps_upload a c.
Proof. intros [H1 H2] [H3 H4]. split; congruence. Qed.

Lemma upload_discipline_exec {A} (t : Task Files.State A) b :
  View.upload_discipline b t ->
  forall amb os w,
    Files.uploading w = b ->
    match result (exec amb t os w) with
    | Done _ => Files.uploading (final (exec amb t os w)) = false
    | Failed _ => False
    | Blocked _ k =>
        Files.uploading (final (exec amb t os w)) = true
        /\ forall o, View.upload_discipline true (k o)
    end.
Proof.
  revert b.
  induction t as [a | e | k IH | q k IH | f k IH | o k IH | rq k IH];
    cbn [View.upload_discipline exec]; intros b H amb os w Hw.
  - cbn. congruence.
  - contradiction.
  - apply (IH _ b); auto.
  - cbn. apply (IH _ b); auto.
  - destruct H as (b' & Hf & Hk). cbn. apply (IH b' Hk). auto.
  - cbn. apply (IH b); auto.
  - destruct H as [-> Hk]. destruct os as [|o os]; cbn.
    + auto.
    + apply (IH o true); auto.
Qed.

Lemma respects_weaken {W A} (R R' : W -> W -> Prop) (t : Task W A) :
  (forall a b, R a b -> R' a b) -> respects R t -> respects R' t.
Proof.
  intros Hsub.
  induction t as [a | e | k IH | q k IH | f k IH | o k IH | rq k IH];
    cbn [respects]; auto.
  intros [Hf Hk]. split; auto.
Qed.

(* ================================================================== *)
(** ** The handlers of the file repository view, path by path           *)
(* ================================================================== *)

Lemma loadFiles_keeps_upload : respects View.keeps_upload Files.loadFiles.
Proof. unfold Files.loadFiles. walk; split; reflexivity. Qed.

Lemma loadRAGStatus_keeps_upload : respects View.keeps_upload Files.loadRAGStatus.
Proof. unfold Files.loadRAGStatus. walk; split; reflexivity. Qed.

Lemma handleDeleteFile_keeps_upload filename :
  respects View.keeps_upload (Files.handleDeleteFile filename).
Proof.
  unfold Files.handleDeleteFile, Files.loadFiles, Files.loadRAGStatus.
  walk; split; reflexivity.
Qed.

Lemma handleReinitializeRAG_sets_nothing :
  respects (@eq Files.State) Files.handleReinitializeRAG.
Proof. unfold Files.handleReinitializeRAG. walk. Qed.

Lemma handleFileUpload_discipline event :
  View.upload_discipline false (Files.handleFileUpload event).
Proof.
  unfold Files.handleFileUpload, Files.loadFiles, Files.loadRAGStatus.
  destruct (hd_error (Files.target_files event)); [|reflexivity].
  walk.
Qed.

(* ================================================================== *)
(** ** The file repository view under any interleaving                  *)
(* ================================================================== *)

Lemma in_flight_snoc_other b l rq k :
  View.in_flight b l ->
  (forall o, respects View.keeps_upload (k o)) ->
  View.in_flight b (l ++ [(rq, k)]).
Proof.
  intros H Hk. induction H; cbn.
  - apply View.in_flight_other; [exact Hk | constructor].
  - apply View.in_flight_other; auto.
  - apply View.in_flight_upload; auto.
Qed.

Lemma in_flight_snoc_upload l rq k :
  View.in_flight false l ->
  (forall o, View.upload_discipline true (k o)) ->
  View.in_flight true (l ++ [(rq, k)]).
Proof.
  intros H Hk. remember false as b eqn:Eb.
  induction H; cbn; subst.
  - apply View.in_flight_upload; [exact Hk | constructor].
  - apply View.in_flight_other; auto.
  - discriminate.
Qed.

Lemma in_flight_remove b l i rq k :
  View.in_flight b l ->
  nth_error l i = Some (rq, k) ->
  (forall o, respects View.keeps_upload (k o))
  /\ View.in_flight b (remove_nth i l)
  \/ (forall o, View.upload_discipline true (k o))
     /\ b = true /\ View.in_flight false (remove_nth i l).
Proof.
  intros H. revert i.
  induction H as [| b rq' k' l Hk' H IH | rq' k' l Hk' H IH]; intros i E.
  - destruct i; discriminate.
  - destruct i as [|i]; cbn in *.
    + injection E as -> ->. left. auto.
    + destruct (IH i E) as [[Hk Hl] | (Hk & -> & Hl)].
      * left. split; [exact Hk|]. apply View.in_flight_other; auto.
      * right. repeat split; auto. apply View.in_flight_other; auto.
  - destruct i as [|i]; cbn in *.
    + injection E as -> ->. right. auto.
    + destruct (IH i E) as [[Hk Hl] | (Hk & Hb & Hl)]; [|discriminate].
      left. split; [exact Hk|]. apply View.in_flight_upload; auto.
Qed.

Lemma in_flight_nil_idle b : View.in_flight b [] -> b = false.
Proof. inversion 1; reflexivity. Qed.

(** Starting or resuming a task that keeps the upload state. *)
Lemma spawn_other amb (t : Task Files.State unit) (s : Sys Files.State) :
  respects View.keeps_upload t ->
  unhandled s = [] ->
  View.in_flight (Files.uploading (world s)) (pool s) ->
  unhandled (spawn amb t s) = []
  /\ View.in_flight (Files.uploading (world (spawn amb t s))) (pool (spawn amb t s)).
Proof.
  intros Ht U P. unfold spawn, advance.
  destruct (@respects_exec _ _ View.keeps_upload t keeps_upload_refl
              keeps_upload_trans Ht amb [] (world s)) as [[Hu _] Hr].
  cbn [world pool unhandled]. rewrite Hu.
  destruct (result (exec amb t [] (world s))) as [a | e | rq k].
  - auto.
  - contradiction.
  - split; [exact U|]. apply in_flight_snoc_other; assumption.
Qed.

(** Starting or resuming the task under the upload discipline. *)
Lemma spawn_upload amb (t : Task Files.State unit) (s : Sys Files.State) :
  View.upload_discipline (Files.uploading (world s)) t ->
  unhandled s = [] ->
  View.in_flight false (pool s) ->
  unhandled (spawn amb t s) = []
  /\ View.in_flight (Files.uploading (world (spawn amb t s))) (pool (spawn amb t s)).
Proof.
  intros Ht U P. unfold spawn, advance.
  pose proof (@upload_discipline_exec _ t _ Ht amb [] (world s) eq_refl) as H.
  cbn [world pool unhandled].
  destruct (result (exec amb t [] (world s))) as [a | e | rq k].
  - rewrite H. auto.
  - contradiction.
  - destruct H as [-> Hk]. split; [exact U|].
    apply in_flight_snoc_upload; assumption.
Qed.

Lemma settle_in_flight amb i o (s : Sys Files.State) :
  unhandled s = [] ->
  View.in_flight (Files.uploading (world s)) (pool s) ->
  unhandled (settle amb i o s) = []
  /\ View.in_flight (Files.uploading (world (settle amb i o s)))
       (pool (settle amb i o s)).
Proof.
  intros U P. unfold settle.
  destruct (nth_error (pool s) i) as [[rq k]|] eqn:E; [|auto].
  destruct (@in_flight_remove _ _ i _ _ P E) as [[Hk Hl] | (Hk & Hb & Hl)].
  - apply spawn_other; auto.
  - apply spawn_upload; cbn [world pool unhandled]; auto.
    rewrite Hb. apply Hk.
Qed.

Lemma view_invariant (v : View.Mounted) :
  View.reachable v ->
  unhandled (View.sys v) = []
  /\ View.in_flight (Files.uploading (world (View.sys v))) (pool (View.sys v)).
Proof.
  induction 1 as [amb | amb a v R [U P]].
  - cbn [View.sys]. unfold Files.mount.
    apply spawn_other; [apply loadRAGStatus_keeps_upload | |];
      apply spawn_other; try apply loadFiles_keeps_upload;
      try reflexivity; constructor.
  - destruct a as [event | filename | | | i o]; cbn [View.step].
    + destruct (Files.uploading (world (View.sys v))) eqn:L.
      * rewrite L. auto.
      * cbn [View.on View.sys]. apply spawn_upload; auto.
        rewrite L. apply handleFileUpload_discipline.
    + cbn [View.on View.sys]. apply spawn_other; auto.
      apply handleDeleteFile_keeps_upload.
    + cbn [View.on View.sys]. apply spawn_other; auto.
      apply (@respects_weaken _ _ (@eq Files.State) View.keeps_upload);
        [intros ? ? <-; apply keeps_upload_refl
        | apply handleReinitializeRAG_sets_nothing].
    + destruct (nth_error _ _) as [[[] ms]|]; [|auto].
      cbn [View.sys]. apply spawn_other; auto.
      apply loadRAGStatus_keeps_upload.
    + cbn [View.on View.sys]. apply settle_in_flight; auto.
Qed.

(** X8. Whatever the user does and however the calls in flight settle
    and interleave, no rejection escapes a handler of the view, and
    [uploading] is never left set with nothing in flight: when no call is
    outstanding the file input is enabled. *)
Theorem view_never_stuck_uploading (v : View.Mounted) :
  View.reachable v ->
  unhandled (View.sys v) = []
  /\ (pool (View.sys v) = [] -> Files.uploading (world (View.sys v)) = false)
  /\ (Files.uploading (world (View.sys v)) = true -> pool (View.sys v) <> []).
Proof.
  intros R. destruct (view_invariant R) as [U P].
  split; [exact U|]. split.
  - intros E. rewrite E in P. exact (@in_flight_nil_idle _ P).
  - intros L E. rewrite E in P. apply in_flight_nil_idle in P. congruence.
Qed.

Lemma view_never_stuck_uploading_witness :
  unhandled (View.sys Sample2.uploading_view) = []
  /\ (pool (View.sys Sample2.uploading_view) = [] ->
      Files.uploading (world (View.sys Sample2.uploading_view)) = false)
  /\ (Files.uploading (world (View.sys Sample2.uploading_view)) = true ->
      pool (View.sys Sample2.uploading_view) <> []).
Proof.
  apply (@view_never_stuck_uploading Sample2.uploading_view).
  unfold Sample2.uploading_view. apply View.reach_step, View.reach_mount.
Defined.

(** X9. An upload started with the input enabled keeps [uploading] true
    at every point where it waits for a call, however many of its calls
    have settled and with whatever outcomes; it ends only with
    [uploading] false, and it never throws. *)
Theorem uploading_while_suspended amb event os (w : Files.State) :
  Files.uploading w = false ->
  let r := exec amb (Files.handleFileUpload event) os w in
  match result r with
  | Done _ => Files.uploading (final r) = false
  | Failed _ => False
  | Blocked _ _ => Files.uploading (final r) = true
  end.
Proof.
  intros Hw. cbv zeta.
  pose proof (@upload_discipline_exec _ _ _
                (handleFileUpload_discipline event) amb os w Hw) as H.
  destruct (result _); tauto.
Qed.

Lemma uploading_while_suspended_witness :
  Files.uploading
    (final (exec Sample.noon (Files.handleFileUpload Sample.pick_report)
              [Sample.http 200 Sample.upload_ok; NetFail] Files.initial))
  = true.
Proof.
  apply (@uploading_while_suspended Sample.noon Sample.pick_report
           [Sample.http 200 Sample.upload_ok; NetFail] Files.initial).
  reflexivity.
Defined.

(** X10. Only the upload handler touches the upload state.  The two
    loaders, the delete handler, the reinitialize handler and the timer
    callback leave [uploading] and the file input as they found them at
    every point of their run and never throw; the reinitialize handler
    changes no state at all. *)
Theorem other_handlers_keep_upload_state amb os (w : Files.State) :
  let untouched (t : Task Files.State unit) :=
    View.keeps_upload w (final (exec amb t os w))
    /\ (forall e, result (exec amb t os w) <> Failed e) in
  untouched Files.loadFiles
  /\ untouched Files.loadRAGStatus
  /\ (forall filename, untouched (Files.handleDeleteFile filename))
  /\ (forall cb, untouched (Files.callback cb))
  /\ untouched Files.handleReinitializeRAG
  /\ final (exec amb Files.handleReinitializeRAG os w) = w.
Proof.
  cbv zeta.
  assert (K : forall t : Task Files.State unit, respects View.keeps_upload t ->
    View.keeps_upload w (final (exec amb t os w))
    /\ (forall e, result (exec amb t os w) <> Failed e)).
  { intros t Ht.
    destruct (@respects_exec _ _ View.keeps_upload t keeps_upload_refl
                keeps_upload_trans Ht amb os w) as [Hu Hr].
    split; [exact Hu|]. intros e E. rewrite E in Hr. exact Hr. }
  assert (Q : respects View.keeps_upload Files.handleReinitializeRAG).
  { apply (@respects_weaken _ _ (@eq Files.State) View.keeps_upload);
      [intros ? ? <-; apply keeps_upload_refl
      | apply handleReinitializeRAG_sets_nothing]. }
  split; [apply K, loadFiles_keeps_upload|].
  split; [apply K, loadRAGStatus_keeps_upload|].
  split; [intros filename; apply K, handleDeleteFile_keeps_upload|].
  split; [intros []; apply K, loadRAGStatus_keeps_upload|].
  split; [apply K, Q|].
  destruct (@respects_exec _ _ (@eq Files.State) Files.handleReinitializeRAG
                (@eq_refl _) (@eq_trans _)
                handleReinitializeRAG_sets_nothing amb os w) as [E _].
    symmetry. exact E.
Qed.

Lemma other_handlers_keep_upload_state_witness :
  final (exec Sample.noon Files.handleReinitializeRAG
           [Sample.http 200 (VObj [])] Files.initial)
  = Files.initial.
Proof.
  apply (@other_handlers_keep_upload_state Sample.noon
           [Sample.http 200 (VObj [])] Files.initial).
Defined.

Lemma listFiles_settles o :
  Api.outcome Api.listFiles o =
  match o with
  | NetFail => Failed FetchTypeError
  | Responded r =>
      if ok r then
        match parsed r with
        | Some v => Done v
        | None => Failed JsonSyntaxError
        end
      else Failed (HttpError (status r))
  end.
Proof.
  unfold Api.outcome. destruct o as [|[code [v|]]]; cbn; unfold Api.check_ok;
    try destruct (ok _); reflexivity.
Qed.

(** X11. The loaders replace, they do not merge.  After [loadFiles] the
    listing is exactly the [files] property of the response, whatever was
    listed before, and after [loadRAGStatus] the status is exactly the
    response; when the call fails, or the listing response is [null], the
    state is the one before.  Either way the loader completes. *)
Theorem loaders_replace_wholesale amb o (w : Files.State) :
  final (exec amb Files.loadFiles [o] w) =
    match Api.outcome Api.listFiles o with
    | Done v =>
        match member v "files" with
        | Some fs => Files.setFiles fs w
        | None => w
        end
    | _ => w
    end
  /\ result (exec amb Files.loadFiles [o] w) = Done tt
  /\ final (exec amb Files.loadRAGStatus [o] w) =
    match Api.outcome Api.getStatus o with
    | Done v => Files.setRagStatus v w
    | _ => w
    end
  /\ result (exec amb Files.loadRAGStatus [o] w) = Done tt.
Proof.
  rewrite listFiles_settles, getStatus_settles.
  unfold Files.loadFiles, Files.loadRAGStatus.
  destruct o as [|[code [v|]]]; cbn; unfold Api.check_ok; cbn;
    try destruct (ok _); cbn; unfold prop;
    try destruct (member v "files"); cbn; repeat split.
Qed.

(** X12. A 2xx listing response that is an object without a [files]
    property is not an error to [loadFiles]: nothing is logged, [files]
    becomes [undefined], and from then on evaluating [files.length], the
    first thing the list section does, throws. *)
Theorem listing_without_files_breaks_list amb code fs (w : Files.State) :
  200 <= code <= 299 ->
  own (lit "files") fs = None ->
  let r := exec amb Files.loadFiles
             [Responded {| status := code; parsed := Some (VObj fs) |}] w in
  result r = Done tt
  /\ outputs (trace r) = []
  /\ Files.files (final r) = VUndef
  /\ View.list_is_empty (final r) = None.
Proof.
  intros Hc Hfs. cbv zeta.
  assert (Hok : ok {| status := code; parsed := Some (VObj fs) |} = true).
  { unfold ok. cbn. apply andb_true_iff. split; apply Z.leb_le; lia. }
  unfold Files.loadFiles. cbn. unfold Api.check_ok. rewrite Hok. cbn.
  rewrite Hfs. cbn. repeat split.
Qed.

Lemma listing_without_files_breaks_list_witness :
  View.list_is_empty
    (final (exec Sample.noon Files.loadFiles [Sample2.listing_without_files]
              Files.initial))
  = None.
Proof.
  apply (@listing_without_files_breaks_list Sample.noon 200
           [(lit "detail", VStr (lit "none"))] Files.initial);
    [lia | reflexivity].
Defined.

(** X13. A successful upload whose [status] is anything but
    ["duplicate"] (["ok"], another string, or no [status] at all)
    refreshes: the three calls are issued in order, and the state it
    leaves is the one [loadFiles] and then [loadRAGStatus] produce,
    between setting and clearing [uploading], with the file input reset. *)
Theorem upload_then_refresh amb event file o1 o2 o3 v st (w : Files.State) :
  hd_error (Files.target_files event) = Some file ->
  Api.outcome (Api.uploadFile [(lit "file", file)]) o1 = Done v ->
  member v "status" = Some st ->
  strict_eq_str st (lit "duplicate") = false ->
  let r := exec amb (Files.handleFileUpload event) [o1; o2; o3] w in
  let listed := final (exec amb Files.loadFiles [o2] (Files.setUploading true w)) in
  let refreshed := final (exec amb Files.loadRAGStatus [o3] listed) in
  calls (trace r) =
    [Api.upload_request [(lit "file", file)]; Api.list_request;
     Api.status_request]
  /\ final r = Files.setPicker [] (Files.setUploading false refreshed)
  /\ outputs (trace r) =
       outputs (trace (exec amb Files.loadFiles [o2] w))
       ++ outputs (trace (exec amb Files.loadRAGStatus [o3] w))
       ++ [OAlert NoticeUploaded].
Proof.
  intros Hf Ho Hs Hd. cbv zeta.
  apply uploadFile_resolved in Ho. destruct Ho as (code & -> & Hok).
  unfold Files.handleFileUpload. rewrite Hf.
  cbn. unfold Api.check_ok. rewrite Hok. cbn. unfold prop. rewrite Hs. cbn.
  rewrite Hd.
  unfold Files.loadFiles, Files.loadRAGStatus, Api.check_ok, prop.
  settle_all; repeat split.
Qed.

Lemma upload_then_refresh_witness :
  Files.files
    (final (exec Sample.noon (Files.handleFileUpload Sample.pick_report)
              [Sample.http 200 Sample.upload_ok; Sample.http 200 Sample.listing;
               Sample.http 200 Sample2.status_active] Files.initial))
  = VArr [VObj [(lit "filename", VStr (lit "report.pdf"))]].
Proof.
  destruct (@upload_then_refresh Sample.noon Sample.pick_report Sample.report_pdf
              (Sample.http 200 Sample.upload_ok) (Sample.http 200 Sample.listing)
              (Sample.http 200 Sample2.status_active) Sample.upload_ok
              (VStr (lit "ok")) Files.initial eq_refl eq_refl eq_refl eq_refl)
    as (_ & E & _).
  rewrite E. reflexivity.
Defined.

(** X14. A confirmed delete whose call succeeds leaves the state that
    [loadFiles] and then [loadRAGStatus] produce, whatever the delete
    response contains, and reports success even when either refresh
    failed. *)
Theorem delete_then_refresh amb filename o1 o2 o3 v (w : Files.State) :
  confirms amb filename = true ->
  Api.outcome (Api.deleteFile filename) o1 = Done v ->
  let r := exec amb (Files.handleDeleteFile filename) [o1; o2; o3] w in
  let listed := final (exec amb Files.loadFiles [o2] w) in
  final r = final (exec amb Files.loadRAGStatus [o3] listed)
  /\ outputs (trace r) =
       OConfirm filename
       :: outputs (trace (exec amb Files.loadFiles [o2] w))
       ++ outputs (trace (exec amb Files.loadRAGStatus [o3] w))
       ++ [OAlert NoticeDeleted].
Proof.
  intros C Ho. cbv zeta.
  apply deleteFile_resolved in Ho. destruct Ho as (code & -> & Hok).
  unfold Files.handleDeleteFile.
  cbn. rewrite C. cbn. unfold Api.check_ok. rewrite Hok. cbn.
  unfold Files.loadFiles, Files.loadRAGStatus, Api.check_ok, prop.
  settle_all; repeat split.
Qed.

Lemma delete_then_refresh_witness :
  outputs
    (trace (exec Sample.noon (Files.handleDeleteFile (lit "report.pdf"))
              [Sample.http 200 (VObj []); NetFail; NetFail] Files.initial))
  = [OConfirm (lit "report.pdf");
     OLog "Error loading files:" FetchTypeError;
     OLog "Error loading RAG status:" FetchTypeError;
     OAlert NoticeDeleted].
Proof.
  destruct (@delete_then_refresh Sample.noon (lit "report.pdf")
              (Sample.http 200 (VObj [])) NetFail NetFail (VObj [])
              Files.initial eq_refl eq_refl) as [_ E].
  rewrite E. reflexivity.
Defined.

(* ================================================================== *)
(** ** The API client, operation by operation                           *)
(* ================================================================== *)

(** X15. When the transport fails, each of the six operations rejects
    with the error of [fetch], a NetworkError.  On a 2xx response each of
    them resolves with exactly the parsed body, and rejects with the
    parser's error when the body is not JSON. *)
Theorem operations_on_failure_and_2xx :
  every_operation (fun t => Api.outcome t NetFail = Failed FetchTypeError)
  /\ NetworkError FetchTypeError = true
  /\ forall r, ok r = true ->
       every_operation (fun t =>
         Api.outcome t (Responded r) =
         match parsed r with
         | Some v => Done v
         | None => Failed JsonSyntaxError
         end).
Proof.
  split; [repeat split|]. split; [reflexivity|].
  intros r Hok. unfold Api.outcome.
  repeat split; intros; cbn; unfold Api.check_ok, Api.json; rewrite ?Hok; cbn;
    destruct (parsed r); reflexivity.
Qed.

Lemma operations_on_failure_and_2xx_witness :
  Api.outcome (Api.deleteFile (lit "report.pdf")) (Sample.http 200 (VObj []))
  = Done (VObj []).
Proof.
  destruct operations_on_failure_and_2xx as (_ & _ & H).
  apply (H {| status := 200; parsed := Some (VObj []) |} eq_refl).
Defined.

(** X16. An operation of the client issues exactly one request, its own,
    however the call settles (there is no retry), and touches no state.
    Only [sendMessage] writes to the console: one line per failure,
    carrying the very error it then rethrows, and nothing on success. *)
Theorem operations_issue_one_request {W} amb o (w : W) :
  let quiet (rq : Request) (t : Task W Val) :=
    calls (trace (exec amb t [o] w)) = [rq]
    /\ states (trace (exec amb t [o] w)) = []
    /\ final (exec amb t [o] w) = w in
  (forall message useRAG,
     quiet (Api.chat_request message useRAG) (Api.sendMessage message useRAG)
     /\ outputs (trace (exec amb (Api.sendMessage message useRAG) [o] w)) =
        match result (exec amb (Api.sendMessage message useRAG) [o] w) with
        | Failed e => [OLog "API Error:" e]
        | _ => []
        end)
  /\ (forall formData,
     quiet (Api.upload_request formData) (Api.uploadFile formData)
     /\ outputs (trace (exec amb (Api.uploadFile formData) [o] w)) = [])
  /\ (forall filename,
     quiet (Api.delete_request filename) (Api.deleteFile filename)
     /\ outputs (trace (exec amb (Api.deleteFile filename) [o] w)) = [])
  /\ (quiet Api.list_request Api.listFiles
     /\ outputs (trace (exec amb Api.listFiles [o] w)) = [])
  /\ (quiet Api.status_request Api.getStatus
     /\ outputs (trace (exec amb Api.getStatus [o] w)) = [])
  /\ (quiet Api.reinitialize_request Api.reinitialize
     /\ outputs (trace (exec amb Api.reinitialize [o] w)) = []).
Proof.
  cbv zeta.
  destruct o as [|[code [v|]]];
    repeat split; intros; cbn; unfold Api.check_ok; cbn;
    try (destruct (ok _); cbn); reflexivity.
Qed.

(** X17. What the status card shows after [loadRAGStatus].  Any JSON
    object that lacks [rag_initialized] and [file_count], such as the
    error body of a non-2xx response, is stored without a log line and
    shown exactly like the initial state: inactive, 0 files.  A status
    with [rag_initialized] true and a non-zero [file_count] is shown as
    active with that count.  After a JSON [null] the card cannot be
    rendered: reading [rag_initialized] throws. *)
Theorem status_card_after_load amb code (w : Files.State) :
  let loaded v :=
    exec amb Files.loadRAGStatus
      [Responded {| status := code; parsed := Some v |}] w in
  (forall fs,
     own (lit "rag_initialized") fs = None ->
     own (lit "file_count") fs = None ->
     Files.ragStatus (final (loaded (VObj fs))) = VObj fs
     /\ outputs (trace (loaded (VObj fs))) = []
     /\ Files.shown_initialized (final (loaded (VObj fs)))
        = Files.shown_initialized Files.initial
     /\ Files.shown_fileCount (final (loaded (VObj fs)))
        = Files.shown_fileCount Files.initial
     /\ Files.shown_initialized Files.initial = Some false
     /\ Files.shown_fileCount Files.initial = Some (VNum 0))
  /\ (forall fs n,
     own (lit "rag_initialized") fs = Some (VBool true) ->
     own (lit "file_count") fs = Some (VNum n) ->
     n <> 0 ->
     Files.shown_initialized (final (loaded (VObj fs))) = Some true
     /\ Files.shown_fileCount (final (loaded (VObj fs))) = Some (VNum n))
  /\ (Files.ragStatus (final (loaded VNull)) = VNull
      /\ outputs (trace (loaded VNull)) = []
      /\ Files.shown_initialized (final (loaded VNull)) = None).
Proof.
  cbv zeta. unfold Files.loadRAGStatus, Files.shown_initialized,
    Files.shown_fileCount.
  split; [|split].
  - intros fs H1 H2. cbn. rewrite H1, H2. repeat split.
  - intros fs n H1 H2 Hn. cbn. rewrite H1, H2. cbn.
    apply Z.eqb_neq in Hn. rewrite Hn. repeat split.
  - cbn. repeat split.
Qed.

Lemma status_card_after_load_witness :
  Files.shown_initialized
    (final (exec Sample.noon Files.loadRAGStatus
              [Sample.http 200 Sample2.status_active] Files.initial))
  = Some true
  /\ Files.shown_fileCount
       (final (exec Sample.noon Files.loadRAGStatus
                 [Sample.http 200 Sample2.status_active] Files.initial))
     = Some (VNum 2).
Proof.
  destruct (@status_card_after_load Sample.noon 200 Files.initial)
    as (_ & Active & _).
  apply (Active [(lit "rag_initialized", VBool true); (lit "file_count", VNum 2)] 2);
    [reflexivity | reflexivity | lia].
Defined.
